(** * The anagram game server (server.js): word validation, scoring and the
      round state machine, as a shallow embedding.

    Data is modelled as the JavaScript has it:
    - a string is its sequence of UTF-16 code units; [length] is [.length];
      [for (let c of s)] walks code points ([string_iterator]);
    - numbers that the server computes with are integers well inside the
      exactly representable range of a double and are modelled in [Z];
      [Math.random()] is a rational in [0, 1);
    - an object used as a dictionary is a [gmap] keyed by strings, a [Set] of
      strings is a [gset];
    - the [games/] directory is a finite map from game code to the game record
      stored in [<code>.json] ([JSON.stringify] followed by [JSON.parse] is the
      identity on these records); the codes are file names, not paths
      ([plain_code]).  Every request handler is synchronous, so a
      handler is a function from the directory to a response and the file
      system effects it performed, in order. *)

From Stdlib Require Import ZArith QArith Qround String Ascii List Lia Permutation Sorted.
From stdpp Require Import gmap strings list fin_maps.

Open Scope Z_scope.

(** ** JavaScript strings *)

(** A string value: UTF-16 code units. *)
Definition jsstring := list N.

(** A string literal of the source (all of them are ASCII). *)
Definition js (s : string) : jsstring := N_of_ascii <$> list_ascii_of_string s.

Definition is_high_surrogate (u : N) : bool := ((55296 <=? u) && (u <=? 56319))%N.
Definition is_low_surrogate (u : N) : bool := ((56320 <=? u) && (u <=? 57343))%N.

(** [for (let letter of s)]: the string iterator yields one string per code
    point, a surrogate pair as a two-unit string and anything else (a lone
    surrogate too) as a one-unit string. *)
Fixpoint string_iterator (s : jsstring) : list jsstring :=
  match s with
  | [] => []
  | u :: rest =>
      match rest with
      | v :: rest' =>
          if is_high_surrogate u && is_low_surrogate v
          then [u; v] :: string_iterator rest'
          else [u] :: string_iterator rest
      | [] => [[u]]
      end
  end.

(** [s[i]] read in a string concatenation: the one-unit string at index [i],
    or [undefined], which [+=] renders as the text "undefined". *)
Definition index_text (s : jsstring) (i : Z) : jsstring :=
  if 0 <=? i then
    match s !! Z.to_nat i with
    | Some u => [u]
    | None => js "undefined"
    end
  else js "undefined".

(** WhiteSpace and LineTerminator code points, the ones [trim] strips. *)
Definition is_white_space (u : N) : bool :=
  bool_decide (u ∈ [9; 10; 11; 12; 13; 32; 160; 5760; 8232; 8233; 8239; 8287; 12288; 65279]%N)
  || ((8192 <=? u) && (u <=? 8202))%N.

Fixpoint trimStart (s : jsstring) : jsstring :=
  match s with
  | u :: rest => if is_white_space u then trimStart rest else s
  | [] => []
  end.

(** [String.prototype.trim]. *)
Definition trim (s : jsstring) : jsstring :=
  rev (trimStart (rev (trimStart s))).

(** ** Helpers of server.js *)

(** The alphabet of [generateGameCode]. *)
Definition chars : jsstring := js "ABCDEFGHJKLMNPQRSTUVWXYZ23456789".

(** [Math.floor(Math.random() * chars.length)] for the draw [r]. *)
Definition random_index (r : Q) (n : nat) : Z :=
  Qfloor (r * inject_Z (Z.of_nat n)).

(** [generateGameCode]: six draws, [random i] being the value of the [i]-th
    call of [Math.random()]. *)
Definition generateGameCode (random : nat → Q) : jsstring :=
  foldl (λ code i, code ++ index_text chars (random_index (random i) (length chars)))
        [] (seq 0 6).

(** What [Math.random()] promises: a value in [0, 1). *)
Definition unit_interval (random : nat → Q) : Prop :=
  ∀ i, (0 <= random i)%Q ∧ (random i < 1)%Q.

(** [A] lists, without repetition, exactly the characters that occur in
    game codes: the alphabet the codes are drawn from. *)
Definition code_alphabet (A : list N) : Prop :=
  NoDup A ∧
  ∀ u, u ∈ A ↔ ∃ random, unit_interval random ∧ u ∈ generateGameCode random.

(** [letterCount[letter] || 0]: a missing entry and a zero both give 0. *)
Definition count_or_zero (letterCount : gmap jsstring Z) (letter : jsstring) : Z :=
  match letterCount !! letter with
  | Some n => if n =? 0 then 0 else n
  | None => 0
  end.

(** First loop of [canFormWord]: tally the letters of the pool.  The keys are
    single code points, so no key meets a property inherited from
    [Object.prototype]. *)
Definition tally (letters : list jsstring) : gmap jsstring Z :=
  foldl (λ letterCount letter,
           <[letter := count_or_zero letterCount letter + 1]> letterCount)
        ∅ letters.

(** Second loop of [canFormWord]: take each letter of the word out of the
    tally, [return false] at the first one that is missing or used up. *)
Fixpoint consume (word : list jsstring) (letterCount : gmap jsstring Z) : bool :=
  match word with
  | [] => true
  | letter :: rest =>
      match letterCount !! letter with
      | None => false
      | Some n =>
          if n =? 0 then false
          else consume rest (<[letter := n - 1]> letterCount)
      end
  end.

Definition canFormWord (word gameLetters : jsstring) : bool :=
  consume (string_iterator word) (tally (string_iterator gameLetters)).

Definition calculatePoints (word : jsstring) : Z :=
  let length := Z.of_nat (length word) in
  if length =? 3 then 100
  else if length =? 4 then 400
  else if length =? 5 then 800
  else if length =? 6 then 1400
  else if length =? 7 then 1800
  else 2300 + (length - 8) * 500.

(** What is left of a letter in a tally. *)
Definition available (letterCount : gmap jsstring Z) (c : jsstring) : Z :=
  default 0 (letterCount !! c).

(** Number of entries of [cs] that are the character [c]. *)
Definition tally_count (c : jsstring) (cs : list jsstring) : nat :=
  length (filter (c =.) cs).

(** Number of code units of [s] equal to [u]. *)
Definition unit_count (u : N) (s : jsstring) : nat :=
  length (filter (u =.) s).

(** No code unit of [s] opens a surrogate pair: iterating over [s] yields its
    code units one by one. *)
Definition no_pairs (s : jsstring) : Prop :=
  Forall (λ u, is_high_surrogate u = false) s.

(** Number of times the character [c] comes up when iterating over [s]. *)
Definition occurrences (c : jsstring) (s : jsstring) : nat :=
  tally_count c (string_iterator s).

(** ** The stored game record *)

Inductive game_status := waiting | active | finished.

Definition status_eqb (a b : game_status) : bool :=
  match a, b with
  | waiting, waiting | active, active | finished, finished => true
  | _, _ => false
  end.

(** One accepted submission, [{ word, points }]. *)
Record word_entry := WordEntry { word : jsstring; points : Z }.

Record player := Player {
  name : jsstring;
  words : list word_entry;
  score : Z
}.

Record game := Game {
  gameCode : jsstring;
  letters : jsstring;
  players : gmap jsstring player;
  status : game_status;
  startTime : option Z;      (* [null] until the game is started *)
  duration : Z;
  createdAt : Z
}.

Definition set_status (g : game) (s : game_status) : game :=
  Game (gameCode g) (letters g) (players g) s (startTime g) (duration g) (createdAt g).

Definition set_startTime (g : game) (t : Z) : game :=
  Game (gameCode g) (letters g) (players g) (status g) (Some t) (duration g) (createdAt g).

Definition set_players (g : game) (ps : gmap jsstring player) : game :=
  Game (gameCode g) (letters g) ps (status g) (startTime g) (duration g) (createdAt g).

(** Position of a status on the path waiting, active, finished. *)
Definition status_rank (s : game_status) : nat :=
  match s with waiting => 0 | active => 1 | finished => 2 end.

(** Sum of [points] over a word list. *)
Definition total_points (ws : list word_entry) : Z :=
  foldr (λ w acc, points w + acc) 0 ws.

(** ** The games directory and the effects of a handler *)

Abbreviation directory := (gmap jsstring game).

(** [saveGame] and [loadGame] address the file
    [path.join(__dirname, 'games', code + '.json')].  For a code without a
    path separator that is the file [<code>.json] of the directory itself,
    and two such codes name the same file only when they are the same string
    (file names are compared character by character).  [path.join] resolves a
    code with a separator in it, which a request path can carry as [%2F], to
    whatever file the path leads to, possibly the file of another code; the
    finite map is keyed by the code as given and does not follow such paths.
    The properties that tell codes apart are therefore stated for plain
    codes: no code unit is 47 (the slash) or 92 (the backslash). *)
Definition plain_code (code : jsstring) : bool :=
  forallb (λ u, negb ((u =? 47) || (u =? 92))%N) code.

Inductive fs_effect :=
  | WriteFile (code : jsstring) (gameData : game)   (* saveGame *)
  | UnlinkFile (code : jsstring).                   (* fs.unlinkSync *)

(** The file of a plain code is written or removed. *)
Definition perform (dir : directory) (e : fs_effect) : directory :=
  match e with
  | WriteFile code gameData => <[code := gameData]> dir
  | UnlinkFile code => delete code dir
  end.

Definition commit (effects : list fs_effect) (dir : directory) : directory :=
  foldl perform dir effects.

(** [loadGame]: [null] when the file does not exist; the file of a plain
    code, see [plain_code]. *)
Definition loadGame (code : jsstring) (dir : directory) : option game := dir !! code.

(** ** Responses *)

Inductive body :=
  | ErrorBody (error : string)                       (* { error } *)
  | ErrorInvalidBody (error : string)                (* { error, valid: false } *)
  | CreatedBody (code letters : jsstring)            (* { gameCode, letters } *)
  | GameBody (g : game)                              (* the game record *)
  | JoinedBody (playerId : jsstring) (g : game)      (* { playerId, game } *)
  | RejectedBody (reason : string)                   (* { valid: false, reason } *)
  | AcceptedBody (pts : Z) (w : jsstring)            (* { valid: true, points, word } *)
  | SuccessBody                                      (* { success: true } *)
  | UncaughtTypeError.                               (* the handler threw *)

Record response := Response { http_status : Z; http_body : body }.

(** [res.json(b)] answers with status 200. *)
Definition json (b : body) : response := Response 200 b.
(** [res.status(c).json(b)]. *)
Definition status_json (c : Z) (b : body) : response := Response c b.
(** An exception that leaves the handler reaches Express's default error
    handler, which answers 500. *)
Definition uncaught : response := Response 500 UncaughtTypeError.

(** ** Property lookup on the players object *)

(** The players object is a plain object: beside its own keys it answers for
    the properties of [Object.prototype]. *)
Definition object_prototype_keys : list jsstring :=
  js <$> ["constructor"; "__proto__"; "hasOwnProperty"; "isPrototypeOf";
          "propertyIsEnumerable"; "toLocaleString"; "toString"; "valueOf";
          "__defineGetter__"; "__defineSetter__"; "__lookupGetter__";
          "__lookupSetter__"]%string.

Inductive property :=
  | Own (p : player)     (* a player record stored under the key *)
  | Inherited            (* a truthy value that is no player record *)
  | Undefined.

(** [game.players[playerId]]. *)
Definition get_player (ps : gmap jsstring player) (playerId : jsstring) : property :=
  match ps !! playerId with
  | Some p => Own p
  | None => if bool_decide (playerId ∈ object_prototype_keys) then Inherited else Undefined
  end.

(** ** Requests *)

Inductive request :=
  | CreateGame (random : nat → Q) (scrambled : jsstring) (now : Z)
  | GetGame (code : jsstring) (now : Z)
  | JoinGame (code : jsstring) (playerName : option jsstring) (stamp : jsstring)
  | StartGame (code : jsstring) (now : Z)
  | SubmitWord (code playerId reqWord : jsstring)
  | RemoveWord (code playerId reqWord : jsstring).

(** What the process reacts to: a request, or the hourly cleanup timer. *)
Inductive event :=
  | Request (r : request)
  | CleanupTick (now : Z).

Section Server.

(** [String.prototype.toUpperCase], a builtin of the language. *)
Variable toUpperCase : jsstring → jsstring.
(** The dictionary read from wordlist.txt at start-up, and its six-letter words. *)
Variable wordSet : gset jsstring.
Variable sixLetterWords : list jsstring.
(** The configured round length in seconds ([parseInt] of the environment
    variable, 10 by default). *)
Variable ROUND_DURATION : Z.

(** [generateLetters]: "MASTER" without six-letter words; otherwise
    [scrambled] stands for the outcome of the random pick and the
    random-comparator sort. *)
Definition generateLetters (scrambled : jsstring) : jsstring :=
  match sixLetterWords with
  | [] => js "MASTER"
  | _ => scrambled
  end.

(** POST /api/games *)
Definition createGame (random : nat → Q) (scrambled : jsstring) (now : Z)
    (dir : directory) : response * list fs_effect :=
  let code := generateGameCode random in
  let letters := generateLetters scrambled in
  let gameData := Game code letters ∅ waiting None ROUND_DURATION now in
  (json (CreatedBody code letters), [WriteFile code gameData]).

(** [elapsed >= game.duration] with [elapsed = (now - startTime) / 1000]. *)
Definition time_is_up (now start dur : Z) : bool :=
  Qle_bool (inject_Z dur) (inject_Z (now - start) / inject_Z 1000).

(** A stored time as a condition: [null] and 0 are falsy. *)
Definition truthy (t : option Z) : bool :=
  match t with
  | Some t => negb (t =? 0)
  | None => false
  end.

(** A stored time as an operand of [-]: [null] counts as 0. *)
Definition to_number (t : option Z) : Z := default 0 t.

(** GET /api/games/:code *)
Definition getGame (code : jsstring) (now : Z) (dir : directory)
    : response * list fs_effect :=
  match loadGame code dir with
  | None => (status_json 404 (ErrorBody "Game not found"), [])
  | Some game =>
      if status_eqb (status game) active && truthy (startTime game) then
        if time_is_up now (to_number (startTime game)) (duration game) then
          let game' := set_status game finished in
          (json (GameBody game'), [WriteFile code game'])
        else (json (GameBody game), [])
      else (json (GameBody game), [])
  end.

(** POST /api/games/:code/join.  The fresh identifier is
    ['player_' + Date.now() + '_' + <random base-36 digits>]; [stamp] is the
    part after the prefix. *)
Definition joinGame (code : jsstring) (playerName : option jsstring) (stamp : jsstring)
    (dir : directory) : response * list fs_effect :=
  match loadGame code dir with
  | None => (status_json 404 (ErrorBody "Game not found"), [])
  | Some game =>
      if negb (status_eqb (status game) waiting) then
        (status_json 400 (ErrorBody "Game already started"), [])
      else
        match playerName with
        | None => (status_json 400 (ErrorBody "Player name required"), [])
        | Some playerName =>
            if (length playerName =? 0)%nat || (length (trim playerName) =? 0)%nat then
              (status_json 400 (ErrorBody "Player name required"), [])
            else
              let playerId := js "player_" ++ stamp in
              let game' :=
                set_players game (<[playerId := Player (trim playerName) [] 0]> (players game)) in
              (json (JoinedBody playerId game'), [WriteFile code game'])
        end
  end.

(** POST /api/games/:code/start *)
Definition startGame (code : jsstring) (now : Z) (dir : directory)
    : response * list fs_effect :=
  match loadGame code dir with
  | None => (status_json 404 (ErrorBody "Game not found"), [])
  | Some game =>
      if negb (status_eqb (status game) waiting) then
        (status_json 400 (ErrorBody "Game already started"), [])
      else
        let game' := set_startTime (set_status game active) now in
        (json (GameBody game'), [WriteFile code game'])
  end.

(** [words.some(w => w.word === wordUpper)] *)
Definition already_submitted (wordUpper : jsstring) (ws : list word_entry) : bool :=
  existsb (λ w, bool_decide (word w = wordUpper)) ws.

(** POST /api/games/:code/words *)
Definition submitWord (code playerId reqWord : jsstring) (dir : directory)
    : response * list fs_effect :=
  match loadGame code dir with
  | None => (status_json 404 (ErrorBody "Game not found"), [])
  | Some game =>
      if negb (status_eqb (status game) active) then
        (status_json 400 (ErrorInvalidBody "Game not active"), [])
      else
        match get_player (players game) playerId with
        | Undefined => (status_json 400 (ErrorInvalidBody "Player not found"), [])
        | found =>
            let wordUpper := toUpperCase (trim reqWord) in
            if (length wordUpper <? 3)%nat then
              (json (RejectedBody "Word must be at least 3 letters"), [])
            else if negb (canFormWord wordUpper (letters game)) then
              (json (RejectedBody "Cannot form word from available letters"), [])
            else if negb (bool_decide (wordUpper ∈ wordSet)) then
              (json (RejectedBody "Word not in dictionary"), [])
            else
              match found with
              | Own p =>
                  if already_submitted wordUpper (words p) then
                    (json (RejectedBody "Word already submitted"), [])
                  else
                    let pts := calculatePoints wordUpper in
                    let p' := Player (name p) (words p ++ [WordEntry wordUpper pts])
                                     (score p + pts) in
                    let game' := set_players game (<[playerId := p']> (players game)) in
                    (json (AcceptedBody pts wordUpper), [WriteFile code game'])
              | _ => (uncaught, [])   (* [.words] is undefined: [.some] throws *)
              end
        end
  end.

(** DELETE /api/games/:code/words *)
Definition removeWord (code playerId reqWord : jsstring) (dir : directory)
    : response * list fs_effect :=
  match loadGame code dir with
  | None => (status_json 404 (ErrorBody "Game not found"), [])
  | Some game =>
      if negb (status_eqb (status game) active) then
        (status_json 400 (ErrorBody "Game not active"), [])
      else
        match get_player (players game) playerId with
        | Undefined => (status_json 400 (ErrorBody "Player not found"), [])
        | Inherited => (uncaught, [])   (* [.words] is undefined: [.findIndex] throws *)
        | Own p =>
            let wordUpper := toUpperCase (trim reqWord) in
            match list_find (λ w, word w = wordUpper) (words p) with
            | Some (wordIndex, removedWord) =>
                let p' := Player (name p) (delete wordIndex (words p))
                                 (score p - points removedWord) in
                let game' := set_players game (<[playerId := p']> (players game)) in
                (json SuccessBody, [WriteFile code game'])
            | None => (json SuccessBody, [])
            end
        end
  end.

(** The hourly cleanup: every stored game older than 24 hours is unlinked. *)
Definition cleanup (now : Z) (dir : directory) : list fs_effect :=
  (λ kv, UnlinkFile kv.1)
    <$> filter (λ kv, now - createdAt kv.2 > 24 * 60 * 60 * 1000) (map_to_list dir).

Definition handle (r : request) (dir : directory) : response * list fs_effect :=
  match r with
  | CreateGame random scrambled now => createGame random scrambled now dir
  | GetGame code now => getGame code now dir
  | JoinGame code playerName stamp => joinGame code playerName stamp dir
  | StartGame code now => startGame code now dir
  | SubmitWord code playerId reqWord => submitWord code playerId reqWord dir
  | RemoveWord code playerId reqWord => removeWord code playerId reqWord dir
  end.

(** The directory after an event. *)
Definition step (e : event) (dir : directory) : directory :=
  match e with
  | Request r => commit (handle r dir).2 dir
  | CleanupTick now => commit (cleanup now dir) dir
  end.

Definition run (es : list event) (dir : directory) : directory :=
  foldl (λ d e, step e d) dir es.

(** Directories the server can be in: it starts on an empty one, and a
    directory that an earlier run left behind is one of these too. *)
Inductive reachable : directory → Prop :=
  | reachable_empty : reachable ∅
  | reachable_step e dir : reachable dir → reachable (step e dir).


(** The player stored under [playerId] in the game stored under [code]. *)
Definition stored_player (dir : directory) (code playerId : jsstring) : option player :=
  game ← dir !! code; players game !! playerId.




(** The changes the handlers make to a stored game, one constructor per
    place where a handler writes an existing game back. *)
Inductive game_update (g : game) : game → Prop :=
  | update_finish :                                    (* GET, time is up *)
      status g = active →
      game_update g (set_status g finished)
  | update_join playerId playerName :                  (* join *)
      status g = waiting →
      game_update g (set_players g (<[playerId := Player playerName [] 0]> (players g)))
  | update_start now :                                 (* start *)
      status g = waiting →
      game_update g (set_startTime (set_status g active) now)
  | update_submit playerId p wordUpper pts :           (* word accepted *)
      status g = active →
      players g !! playerId = Some p →
      already_submitted wordUpper (words p) = false →
      game_update g
        (set_players g
           (<[playerId := Player (name p) (words p ++ [WordEntry wordUpper pts])
                                 (score p + pts)]> (players g)))
  | update_remove playerId p wordUpper wordIndex removedWord :   (* word removed *)
      status g = active →
      players g !! playerId = Some p →
      list_find (λ w, word w = wordUpper) (words p) = Some (wordIndex, removedWord) →
      game_update g
        (set_players g
           (<[playerId := Player (name p) (delete wordIndex (words p))
                                 (score p - points removedWord)]> (players g))).

(** The record that [createGame] writes. *)
Definition new_game (random : nat → Q) (scrambled : jsstring) (now : Z) : game :=
  Game (generateGameCode random) (generateLetters scrambled) ∅ waiting None
       ROUND_DURATION now.

(** Every player of every stored game satisfies [P]. *)
Definition all_players (P : player → Prop) (dir : directory) : Prop :=
  ∀ code game playerId p,
    dir !! code = Some game → players game !! playerId = Some p → P p.

(** ** Definitions for the further properties *)

(** The code a request addresses; for a create request, the code it draws. *)
Definition request_code (r : request) : jsstring :=
  match r with
  | CreateGame random _ _ => generateGameCode random
  | GetGame code _ | JoinGame code _ _ | StartGame code _
  | SubmitWord code _ _ | RemoveWord code _ _ => code
  end.

(** [handled g r g']: the handler of request [r], having loaded game [g],
    writes [g'] back.  One constructor per [saveGame] call of a handler that
    loaded a game, with the conditions under which the call is reached. *)
Inductive handled (g : game) : request → game → Prop :=
  | handled_finish code now :
      status g = active →
      truthy (startTime g) = true →
      time_is_up now (to_number (startTime g)) (duration g) = true →
      handled g (GetGame code now) (set_status g finished)
  | handled_join code playerName stamp :
      status g = waiting →
      trim playerName ≠ [] →
      handled g (JoinGame code (Some playerName) stamp)
        (set_players g
           (<[js "player_" ++ stamp := Player (trim playerName) [] 0]> (players g)))
  | handled_start code now :
      status g = waiting →
      handled g (StartGame code now) (set_startTime (set_status g active) now)
  | handled_submit code playerId reqWord p :
      status g = active →
      players g !! playerId = Some p →
      (3 ≤ length (toUpperCase (trim reqWord)))%nat →
      canFormWord (toUpperCase (trim reqWord)) (letters g) = true →
      toUpperCase (trim reqWord) ∈ wordSet →
      toUpperCase (trim reqWord) ∉ word <$> words p →
      handled g (SubmitWord code playerId reqWord)
        (set_players g
           (<[playerId :=
                Player (name p)
                  (words p ++ [WordEntry (toUpperCase (trim reqWord))
                                         (calculatePoints (toUpperCase (trim reqWord)))])
                  (score p + calculatePoints (toUpperCase (trim reqWord)))]>
              (players g)))
  | handled_remove code playerId reqWord p wordIndex removedWord :
      status g = active →
      players g !! playerId = Some p →
      list_find (λ w, word w = toUpperCase (trim reqWord)) (words p)
        = Some (wordIndex, removedWord) →
      handled g (RemoveWord code playerId reqWord)
        (set_players g
           (<[playerId := Player (name p) (delete wordIndex (words p))
                                 (score p - points removedWord)]> (players g))).

(** The answer is a refusal: an error status, or a word rejection. *)
Definition refusal (resp : response) : Prop :=
  http_status resp ≠ 200 ∨ ∃ reason, http_body resp = RejectedBody reason.

(** The game record that a response carries, if it carries one. *)
Definition snapshot (resp : response) : option game :=
  match http_body resp with
  | GameBody g | JoinedBody _ g => Some g
  | _ => None
  end.

(** A string that does not begin with white space. *)
Definition starts_clean (s : jsstring) : Prop :=
  match s with
  | u :: _ => is_white_space u = false
  | [] => True
  end.

(** A string of white space only (the empty string is one). *)
Definition blank (s : jsstring) : Prop :=
  Forall (λ u, is_white_space u = true) s.

(** A listed word passed the checks of [submitWord] against the letters of
    its game and carries the points of its length. *)
Definition entry_ok (g : game) (e : word_entry) : Prop :=
  points e = calculatePoints (word e) ∧
  (3 ≤ length (word e))%nat ∧
  canFormWord (word e) (letters g) = true ∧
  word e ∈ wordSet.

Definition player_ok (g : game) (playerId : jsstring) (p : player) : Prop :=
  (∃ stamp, playerId = js "player_" ++ stamp) ∧
  name p ≠ [] ∧
  trim (name p) = name p ∧
  Forall (entry_ok g) (words p) ∧
  NoDup (word <$> words p) ∧
  score p = total_points (words p) ∧
  (status g = waiting → words p = []).

Definition game_ok (code : jsstring) (g : game) : Prop :=
  gameCode g = code ∧
  duration g = ROUND_DURATION ∧
  (status g = waiting ↔ startTime g = None) ∧
  ∀ playerId p, players g !! playerId = Some p → player_ok g playerId p.

(** [wordlist.split('\n')] *)
Fixpoint split_lines (s : jsstring) : list jsstring :=
  match s with
  | [] => [[]]
  | u :: rest =>
      if (u =? 10)%N then [] :: split_lines rest
      else
        match split_lines rest with
        | line :: lines => (u :: line) :: lines
        | [] => [[u]]
        end
  end.

(** The start-up code that fills [wordSet] and [sixLetterWords]: [file] is
    the text of wordlist.txt, or [None] when reading it throws, in which
    case both stay empty. *)
Definition loadWordlist (file : option jsstring) : gset jsstring * list jsstring :=
  match file with
  | None => (∅, [])
  | Some wordlist =>
      let words :=
        filter (λ w, (3 ≤ length w)%nat)
               ((λ w, toUpperCase (trim w)) <$> split_lines wordlist) in
      (list_to_set words, filter (λ w, length w = 6%nat) words)
  end.

(** The client's [updateTimer]: the number it writes into the timer, or
    [None] when it returns without touching the page.  The word input is
    disabled when the number is 0. *)
Definition updateTimer (g : game) (now : Z) : option Z :=
  if negb (status_eqb (status g) active) || negb (truthy (startTime g)) then None
  else
    let elapsed := (inject_Z (now - to_number (startTime g)) / inject_Z 1000)%Q in
    Some (Z.max 0 (Qceiling (inject_Z (duration g) - elapsed))).

(** The client's leaderboard order, [entries.sort((a, b) => b.score - a.score)]:
    a stable sort by falling score.  An entry is put in front of the first
    entry that has no higher score. *)
Fixpoint insert_by_score (x : jsstring * player) (l : list (jsstring * player))
    : list (jsstring * player) :=
  match l with
  | [] => [x]
  | y :: l' => if score x.2 <? score y.2 then y :: insert_by_score x l' else x :: l
  end.

Definition sortedPlayers (entries : list (jsstring * player)) : list (jsstring * player) :=
  foldr insert_by_score [] entries.

(** ** Scoring *)

(** C1: the score of a word is the table value of its length: 3 gives 100,
    4 gives 400, 5 gives 800, 6 gives 1400, 7 gives 1800, and a length of 8 or
    more gives 2300 + (length - 8) * 500. *)
Theorem calculatePoints_piecewise (w : jsstring) :
  (length w = 3%nat → calculatePoints w = 100) ∧
  (length w = 4%nat → calculatePoints w = 400) ∧
  (length w = 5%nat → calculatePoints w = 800) ∧
  (length w = 6%nat → calculatePoints w = 1400) ∧
  (length w = 7%nat → calculatePoints w = 1800) ∧
  ((8 ≤ length w)%nat →
     calculatePoints w = 2300 + (Z.of_nat (length w) - 8) * 500).
Proof.
  unfold calculatePoints; cbv zeta.
  repeat split; intros Hlen; try (rewrite Hlen; reflexivity).
  rewrite !(proj2 (Z.eqb_neq _ _)) by lia.
  reflexivity.
Qed.

(** ** Forming a word from the letter pool *)

Lemma tally_count_cons c x cs :
  tally_count c (x :: cs) = ((if decide (c = x) then 1 else 0) + tally_count c cs)%nat.
Proof.
  unfold tally_count. rewrite filter_cons.
  destruct (decide (c = x)); reflexivity.
Qed.

Lemma tally_count_snoc c x cs :
  tally_count c (cs ++ [x]) = (tally_count c cs + (if decide (c = x) then 1 else 0))%nat.
Proof.
  unfold tally_count. rewrite filter_app, length_app, filter_cons, filter_nil.
  destruct (decide (c = x)); reflexivity.
Qed.

Lemma tally_snoc cs x :
  tally (cs ++ [x]) = <[x := count_or_zero (tally cs) x + 1]> (tally cs).
Proof. unfold tally. rewrite foldl_app. reflexivity. Qed.

Lemma count_or_zero_available m c : count_or_zero m c = available m c.
Proof.
  unfold count_or_zero, available.
  destruct (m !! c) as [n|]; simpl; [|reflexivity].
  destruct (Z.eqb_spec n 0); congruence.
Qed.

(** After the first loop every letter of the pool is available as often as
    it occurs. *)
Lemma tally_available cs c : available (tally cs) c = Z.of_nat (tally_count c cs).
Proof.
  induction cs as [|x cs IH] using rev_ind; [reflexivity|].
  rewrite tally_snoc, tally_count_snoc, count_or_zero_available.
  unfold available in *.
  destruct (decide (c = x)) as [->|Hne].
  - rewrite lookup_insert_eq. simpl. lia.
  - rewrite lookup_insert_ne by congruence. lia.
Qed.

(** The second loop succeeds exactly when no letter is asked for more often
    than it is available. *)
Lemma consume_available w :
  ∀ m, (∀ c, 0 ≤ available m c) →
    consume w m = true ↔ ∀ c, Z.of_nat (tally_count c w) ≤ available m c.
Proof.
  induction w as [|x w IH]; intros m Hpos; simpl.
  - split; [intros _ c; apply Hpos | reflexivity].
  - assert (Hx := Hpos x).
    destruct (m !! x) as [n|] eqn:Hm.
    + destruct (Z.eqb_spec n 0) as [->|Hn].
      * split; [discriminate|]. intros H. specialize (H x).
        rewrite tally_count_cons in H. unfold available in H.
        rewrite Hm in H. simpl in H. rewrite decide_True in H by reflexivity. lia.
      * unfold available in Hx. rewrite Hm in Hx. simpl in Hx.
        rewrite IH.
        -- split; intros H c; specialize (H c); rewrite tally_count_cons in *;
             unfold available in *;
             destruct (decide (c = x)) as [->|Hne];
             rewrite ?lookup_insert_eq, ?Hm in *; simpl in *;
             rewrite ?lookup_insert_ne in * by congruence; lia.
        -- intros c. unfold available.
           destruct (decide (c = x)) as [->|Hne].
           ++ rewrite lookup_insert_eq. simpl. lia.
           ++ rewrite lookup_insert_ne by congruence. apply Hpos.
    + split; [discriminate|]. intros H. specialize (H x).
      rewrite tally_count_cons in H. unfold available in H.
      rewrite Hm in H. simpl in H. rewrite decide_True in H by reflexivity. lia.
Qed.

(** The two loops together compare the counts of every character. *)
Lemma consume_tally (w pool : list jsstring) :
  consume w (tally pool) = true ↔
  ∀ c, (tally_count c w ≤ tally_count c pool)%nat.
Proof.
  rewrite consume_available.
  - split; intros H c; specialize (H c); rewrite tally_available in *; lia.
  - intros c. rewrite tally_available. lia.
Qed.

(** C2: [canFormWord word letters] is true exactly when every character
    occurs in [word] at most as often as in [letters].  Characters are what
    iterating over a string yields, that is code points. *)
Theorem canFormWord_iff_counts (w gameLetters : jsstring) :
  canFormWord w gameLetters = true ↔
  ∀ c : jsstring, (occurrences c w ≤ occurrences c gameLetters)%nat.
Proof.
  unfold canFormWord, occurrences. apply consume_tally.
Qed.

Lemma string_iterator_units s :
  no_pairs s → string_iterator s = (λ u, [u]) <$> s.
Proof.
  induction 1 as [|u s Hu _ IH]; [reflexivity|].
  cbn [string_iterator]. rewrite Hu, IH.
  destruct s; reflexivity.
Qed.

Lemma tally_count_units c s :
  tally_count c ((λ u, [u]) <$> s)
  = match c with [u] => unit_count u s | _ => 0%nat end.
Proof.
  unfold tally_count, unit_count.
  destruct c as [|u [|u' c']];
    (induction s as [|v s IH]; [reflexivity|]);
    cbn [fmap list_fmap]; rewrite filter_cons.
  - rewrite decide_False by discriminate. exact IH.
  - rewrite (filter_cons (u =.) v s).
    destruct (decide (u = v)) as [->|Hne].
    + rewrite decide_True by reflexivity. cbn [length]. rewrite IH. reflexivity.
    + rewrite decide_False by congruence. exact IH.
  - rewrite decide_False by discriminate. exact IH.
Qed.

(** For strings without surrogate pairs (every word over A-Z is one) the
    characters are the code units, and the counts are counts of code units. *)
Lemma canFormWord_iff_unit_counts (w gameLetters : jsstring) :
  no_pairs w → no_pairs gameLetters →
  canFormWord w gameLetters = true ↔
  ∀ u : N, (unit_count u w ≤ unit_count u gameLetters)%nat.
Proof.
  intros Hw Hl. unfold canFormWord.
  rewrite (string_iterator_units _ Hw), (string_iterator_units _ Hl), consume_tally.
  split.
  - intros H u. specialize (H [u]). rewrite !tally_count_units in H. exact H.
  - intros H c. rewrite !tally_count_units.
    destruct c as [|u [|? ?]]; [lia | apply H | lia].
Qed.

(** ** Game codes *)

Lemma random_index_range r :
  (0 <= r)%Q → (r < 1)%Q → 0 ≤ random_index r (length chars) < 32.
Proof.
  intros H0 H1. unfold random_index.
  change (Z.of_nat (length chars)) with 32.
  split.
  - change 0 with (Qfloor 0). apply Qfloor_resp_le.
    apply Qmult_le_0_compat; [exact H0 | discriminate].
  - rewrite Zlt_Qlt. eapply Qle_lt_trans; [apply Qfloor_le|].
    change (inject_Z 32) with (1 * inject_Z 32)%Q at 2.
    apply Qmult_lt_compat_r; [reflexivity | exact H1].
Qed.

Lemma index_text_chars i :
  0 ≤ i < 32 → ∃ u, index_text chars i = [u] ∧ chars !! Z.to_nat i = Some u.
Proof.
  intros Hi. unfold index_text.
  destruct (Z.leb_spec 0 i); [|lia].
  destruct (chars !! Z.to_nat i) as [u|] eqn:Hu; [eauto|].
  apply lookup_ge_None in Hu. change (length chars) with 32%nat in Hu. lia.
Qed.

(** The code is the six characters picked by the six draws. *)
Lemma generateGameCode_picks random :
  unit_interval random →
  ∃ us, generateGameCode random = us ∧ length us = 6%nat ∧
        ∀ k u, us !! k = Some u →
               chars !! Z.to_nat (random_index (random k) (length chars)) = Some u.
Proof.
  intros Hr.
  pose proof (λ i, index_text_chars _
                (random_index_range (random i) (proj1 (Hr i)) (proj2 (Hr i)))) as Hpick.
  destruct (Hpick 0%nat) as (u0 & E0 & L0), (Hpick 1%nat) as (u1 & E1 & L1),
    (Hpick 2%nat) as (u2 & E2 & L2), (Hpick 3%nat) as (u3 & E3 & L3),
    (Hpick 4%nat) as (u4 & E4 & L4), (Hpick 5%nat) as (u5 & E5 & L5).
  exists [u0; u1; u2; u3; u4; u5].
  split; [|split; [reflexivity|]].
  - unfold generateGameCode. cbn [seq foldl]. rewrite E0, E1, E2, E3, E4, E5. reflexivity.
  - intros k u Hk.
    do 6 (destruct k as [|k]; [cbn in Hk; congruence|]). discriminate.
Qed.

Lemma chars_producible k u :
  chars !! k = Some u →
  ∃ random, unit_interval random ∧ u ∈ generateGameCode random.
Proof.
  intros Hk.
  assert (k < 32)%nat as Hlt by (apply lookup_lt_Some in Hk; exact Hk).
  set (r := (Z.of_nat k # 32)%Q).
  assert (Hunit : unit_interval (λ _, r)).
  { intros _. unfold r, Qle, Qlt; cbn. lia. }
  exists (λ _, r). split; [exact Hunit|].
  destruct (generateGameCode_picks _ Hunit) as (us & -> & Hlen & Hus).
  destruct us as [|u0 us]; [discriminate|].
  specialize (Hus 0%nat u0 eq_refl). cbv beta in Hus.
  assert (random_index r (length chars) = Z.of_nat k) as Hidx.
  { unfold random_index, r. change (Z.of_nat (length chars)) with 32.
    unfold Qfloor, Qmult, inject_Z; cbn [Qnum Qden].
    change (Z.pos (32 * 1)) with 32. apply Z.div_mul. lia. }
  rewrite Hidx, Nat2Z.id, Hk in Hus. injection Hus as ->. left.
Qed.

Lemma chars_is_code_alphabet : code_alphabet chars.
Proof.
  split.
  - apply (bool_decide_unpack (NoDup chars)). vm_compute. exact I.
  - intros u. split.
    + intros Hin. apply list_elem_of_lookup in Hin as [k Hk].
      eapply chars_producible, Hk.
    + intros (random & Hr & Hin).
      destruct (generateGameCode_picks _ Hr) as (us & Heq & _ & Hus).
      rewrite Heq in Hin. apply list_elem_of_lookup in Hin as [k Hk].
      eapply list_elem_of_lookup_2, Hus, Hk.
Qed.

(** C7, as amended: a game code has exactly 6 characters, and the characters
    that occur in game codes are exactly the 32 characters of [chars], none
    of which is 0, O, 1 or I. *)
Theorem generateGameCode_alphabet :
  (∀ random, unit_interval random → length (generateGameCode random) = 6%nat) ∧
  code_alphabet chars ∧
  length chars = 32%nat ∧
  (∀ u, u ∈ js "0O1I" → u ∉ chars).
Proof.
  split; [|split; [exact chars_is_code_alphabet | split; [reflexivity|]]].
  - intros random Hr.
    destruct (generateGameCode_picks _ Hr) as (us & -> & Hlen & _). exact Hlen.
  - apply Forall_forall.
    apply (bool_decide_unpack (Forall (λ u, u ∉ chars) (js "0O1I"))).
    vm_compute. exact I.
Qed.

(** C7, as stated, fails: the alphabet has 32 characters, and no alphabet
    of 33 characters is the set of characters that game codes are drawn
    from. *)
Lemma generateGameCode_alphabet_not_33 :
  length chars = 32%nat ∧ ¬ ∃ A, code_alphabet A ∧ length A = 33%nat.
Proof.
  split; [reflexivity|].
  intros (A & [HnodupA HA] & Hlen).
  destruct chars_is_code_alphabet as [Hnodup Hchars].
  assert (A ≡ₚ chars) as Hperm.
  { apply NoDup_Permutation; [assumption..|].
    intros u. rewrite HA, Hchars. reflexivity. }
  apply Permutation_length in Hperm. rewrite Hlen in Hperm. discriminate.
Qed.

(** ** Word submission *)

Lemma get_player_own ps playerId p :
  ps !! playerId = Some p → get_player ps playerId = Own p.
Proof. intros H. unfold get_player. rewrite H. reflexivity. Qed.


Lemma already_submitted_true w ws :
  already_submitted w ws = true ↔ w ∈ word <$> ws.
Proof.
  unfold already_submitted. rewrite existsb_exists, list_elem_of_fmap.
  split.
  - intros (e & Hin & He). apply bool_decide_eq_true in He.
    exists e. split; [congruence | apply list_elem_of_In, Hin].
  - intros (e & -> & Hin). exists e.
    split; [apply list_elem_of_In, Hin | apply bool_decide_eq_true; reflexivity].
Qed.

Lemma already_submitted_false w ws :
  already_submitted w ws = false ↔ w ∉ word <$> ws.
Proof.
  rewrite <- already_submitted_true. destruct (already_submitted w ws); split; congruence.
Qed.

Lemma already_submitted_snoc w ws pts :
  already_submitted w (ws ++ [WordEntry w pts]) = true.
Proof.
  apply already_submitted_true. rewrite fmap_app. set_solver.
Qed.

(** The answer to a word that passes all four checks. *)
Lemma submitWord_accepted code playerId reqWord dir game p wordUpper :
  loadGame code dir = Some game →
  status game = active →
  players game !! playerId = Some p →
  wordUpper = toUpperCase (trim reqWord) →
  (3 ≤ length wordUpper)%nat →
  canFormWord wordUpper (letters game) = true →
  wordUpper ∈ wordSet →
  wordUpper ∉ word <$> words p →
  submitWord code playerId reqWord dir
    = (json (AcceptedBody (calculatePoints wordUpper) wordUpper),
       [WriteFile code
          (set_players game
             (<[playerId := Player (name p)
                              (words p ++ [WordEntry wordUpper (calculatePoints wordUpper)])
                              (score p + calculatePoints wordUpper)]> (players game)))]).
Proof.
  intros Hload Hstatus Hp -> Hlen Hform Hdict Hnew.
  unfold submitWord.
  rewrite Hload, Hstatus, (get_player_own _ _ _ Hp). cbn [status_eqb negb].
  rewrite (proj2 (Nat.ltb_ge _ _) Hlen), Hform, (bool_decide_eq_true_2 _ Hdict),
    (proj2 (already_submitted_false _ _) Hnew).
  reflexivity.
Qed.

(** The answer to a word that passes the first three checks and is in the
    player's list. *)
Lemma submitWord_duplicate code playerId reqWord dir game p wordUpper :
  loadGame code dir = Some game →
  status game = active →
  players game !! playerId = Some p →
  wordUpper = toUpperCase (trim reqWord) →
  (3 ≤ length wordUpper)%nat →
  canFormWord wordUpper (letters game) = true →
  wordUpper ∈ wordSet →
  wordUpper ∈ word <$> words p →
  submitWord code playerId reqWord dir
    = (json (RejectedBody "Word already submitted"), []).
Proof.
  intros Hload Hstatus Hp -> Hlen Hform Hdict Hold.
  unfold submitWord.
  rewrite Hload, Hstatus, (get_player_own _ _ _ Hp). cbn [status_eqb negb].
  rewrite (proj2 (Nat.ltb_ge _ _) Hlen), Hform, (bool_decide_eq_true_2 _ Hdict),
    (proj2 (already_submitted_true _ _) Hold).
  reflexivity.
Qed.

(** C5: a word that passes the length, letters and dictionary checks and is
    not yet in the player's list is accepted when submitted; submitting it
    again is answered with the reason "Word already submitted", writes
    nothing, and leaves the player, and so the score, as the first
    submission left it. *)
Theorem submitWord_twice code playerId reqWord dir game p wordUpper :
  loadGame code dir = Some game →
  status game = active →
  players game !! playerId = Some p →
  wordUpper = toUpperCase (trim reqWord) →
  (3 ≤ length wordUpper)%nat →
  canFormWord wordUpper (letters game) = true →
  wordUpper ∈ wordSet →
  wordUpper ∉ word <$> words p →
  ∃ dir1 p1,
    dir1 = step (Request (SubmitWord code playerId reqWord)) dir ∧
    (submitWord code playerId reqWord dir).1
      = json (AcceptedBody (calculatePoints wordUpper) wordUpper) ∧
    stored_player dir1 code playerId = Some p1 ∧
    score p1 = score p + calculatePoints wordUpper ∧
    submitWord code playerId reqWord dir1
      = (json (RejectedBody "Word already submitted"), []) ∧
    step (Request (SubmitWord code playerId reqWord)) dir1 = dir1 ∧
    score <$> stored_player (step (Request (SubmitWord code playerId reqWord)) dir1)
                            code playerId
      = Some (score p1).
Proof.
  intros Hload Hstatus Hp Hw Hlen Hform Hdict Hnew.
  pose proof (submitWord_accepted _ _ _ _ _ _ _ Hload Hstatus Hp Hw Hlen Hform Hdict Hnew)
    as H1.
  set (p1 := Player (name p) (words p ++ [WordEntry wordUpper (calculatePoints wordUpper)])
                    (score p + calculatePoints wordUpper)) in *.
  set (game1 := set_players game (<[playerId := p1]> (players game))) in *.
  assert (step (Request (SubmitWord code playerId reqWord)) dir = <[code := game1]> dir)
    as Hstep by (cbn [step handle]; rewrite H1; reflexivity).
  assert (loadGame code (<[code := game1]> dir) = Some game1) as Hload1
    by apply lookup_insert_eq.
  assert (players game1 !! playerId = Some p1) as Hp1 by apply lookup_insert_eq.
  assert (wordUpper ∈ word <$> words p1) as Hold
    by (apply already_submitted_true, already_submitted_snoc).
  pose proof (submitWord_duplicate _ _ _ _ _ _ _ Hload1 Hstatus Hp1 Hw Hlen Hform Hdict Hold)
    as H2.
  assert (stored_player (<[code := game1]> dir) code playerId = Some p1) as Hstored.
  { unfold stored_player. rewrite lookup_insert_eq. exact Hp1. }
  exists (<[code := game1]> dir), p1. rewrite Hstep.
  split; [reflexivity|]. split; [rewrite H1; reflexivity|].
  split; [exact Hstored|]. split; [reflexivity|].
  split; [exact H2|].
  assert (step (Request (SubmitWord code playerId reqWord)) (<[code := game1]> dir)
          = <[code := game1]> dir) as Hstep2
    by (cbn [step handle]; rewrite H2; reflexivity).
  rewrite Hstep2, Hstored. split; reflexivity.
Qed.

(** ** Requests in the wrong state *)

(** C8: joining a game that is not waiting (so any started game) is refused
    with status 400 "Game already started", and submitting a word to a game
    that is not active (so any game not yet started) is refused with status
    400 "Game not active"; both are the server's rendering of InvalidState,
    and neither writes anything: the directory is as before. *)
Theorem wrong_state_is_refused code dir game :
  loadGame code dir = Some game →
  (status game ≠ waiting →
     ∀ playerName stamp,
       joinGame code playerName stamp dir
         = (Response 400 (ErrorBody "Game already started"), []) ∧
       step (Request (JoinGame code playerName stamp)) dir = dir) ∧
  (status game ≠ active →
     ∀ playerId reqWord,
       submitWord code playerId reqWord dir
         = (Response 400 (ErrorInvalidBody "Game not active"), []) ∧
       step (Request (SubmitWord code playerId reqWord)) dir = dir).
Proof.
  intros Hload. split; intros Hstatus.
  - intros playerName stamp.
    assert (joinGame code playerName stamp dir
            = (Response 400 (ErrorBody "Game already started"), [])) as H.
    { unfold joinGame. rewrite Hload.
      destruct (status game); [congruence | reflexivity | reflexivity]. }
    split; [exact H|]. cbn [step handle]. rewrite H. reflexivity.
  - intros playerId reqWord.
    assert (submitWord code playerId reqWord dir
            = (Response 400 (ErrorInvalidBody "Game not active"), [])) as H.
    { unfold submitWord. rewrite Hload.
      destruct (status game); [reflexivity | congruence | reflexivity]. }
    split; [exact H|]. cbn [step handle]. rewrite H. reflexivity.
Qed.

(** ** Word removal *)

(** C9: for an active game and a player of it, removing a word that is not
    in the player's list answers success and writes nothing, so the
    directory is as before; removing a word that is in the list answers
    success and writes the game with the first entry for that word taken
    out of the list and the score lowered by the points stored in that
    entry, whatever they are. *)
Theorem removeWord_spec code playerId reqWord dir game p wordUpper :
  loadGame code dir = Some game →
  status game = active →
  players game !! playerId = Some p →
  wordUpper = toUpperCase (trim reqWord) →
  (wordUpper ∉ word <$> words p →
     removeWord code playerId reqWord dir = (Response 200 SuccessBody, []) ∧
     step (Request (RemoveWord code playerId reqWord)) dir = dir) ∧
  (∀ i e,
     words p !! i = Some e →
     word e = wordUpper →
     (∀ j e', words p !! j = Some e' → (j < i)%nat → word e' ≠ wordUpper) →
     removeWord code playerId reqWord dir
       = (Response 200 SuccessBody,
          [WriteFile code
             (set_players game
                (<[playerId := Player (name p) (delete i (words p)) (score p - points e)]>
                   (players game)))]) ∧
     stored_player (step (Request (RemoveWord code playerId reqWord)) dir) code playerId
       = Some (Player (name p) (delete i (words p)) (score p - points e))).
Proof.
  intros Hload Hstatus Hp ->.
  assert (∀ found,
    list_find (λ w, word w = toUpperCase (trim reqWord)) (words p) = found →
    removeWord code playerId reqWord dir =
      match found with
      | Some (i, e) =>
          (json SuccessBody,
           [WriteFile code
              (set_players game
                 (<[playerId := Player (name p) (delete i (words p)) (score p - points e)]>
                    (players game)))])
      | None => (json SuccessBody, [])
      end) as Hrun.
  { intros found <-. unfold removeWord.
    rewrite Hload, Hstatus, (get_player_own _ _ _ Hp). cbn [status_eqb negb].
    destruct (list_find _ _) as [[i e]|]; reflexivity. }
  split.
  - intros Hnot.
    assert (list_find (λ w, word w = toUpperCase (trim reqWord)) (words p) = None) as Hnone.
    { apply list_find_None, Forall_forall. intros e He Heq.
      apply Hnot, list_elem_of_fmap. exists e. split; [congruence | exact He]. }
    specialize (Hrun _ Hnone). split; [exact Hrun|].
    cbn [step handle]. rewrite Hrun. reflexivity.
  - intros i e Hi He Hfirst.
    assert (list_find (λ w, word w = toUpperCase (trim reqWord)) (words p) = Some (i, e))
      as Hsome.
    { apply list_find_Some. split; [exact Hi|]. split; [exact He|].
      intros j e' Hj Hlt. exact (Hfirst j e' Hj Hlt). }
    specialize (Hrun _ Hsome). cbv beta iota in Hrun. split; [exact Hrun|].
    cbn [step handle]. rewrite Hrun. cbn [snd commit foldl perform].
    unfold stored_player. rewrite lookup_insert_eq. cbn.
    apply lookup_insert_eq.
Qed.

(** ** What an event does to the directory *)

(** A handler writes nothing, or writes a new game, or writes back an update
    of the game it loaded. *)
Lemma handle_effects r dir :
  (handle r dir).2 = [] ∨
  (∃ random scrambled now,
     r = CreateGame random scrambled now ∧
     (handle r dir).2 = [WriteFile (generateGameCode random) (new_game random scrambled now)]) ∨
  (∃ code g g',
     dir !! code = Some g ∧ game_update g g' ∧ (handle r dir).2 = [WriteFile code g']).
Proof.
  destruct r as [random scrambled now | code now | code playerName stamp | code now
                | code playerId reqWord | code playerId reqWord]; cbn [handle].
  - right; left. exists random, scrambled, now. split; reflexivity.
  - unfold getGame, loadGame.
    destruct (dir !! code) as [g|] eqn:Hg; [|left; reflexivity].
    destruct (status g) eqn:Hs; cbn [status_eqb andb]; try (left; reflexivity).
    destruct (truthy (startTime g)); [|left; reflexivity].
    destruct (time_is_up _ _ _); [|left; reflexivity].
    right; right. exists code, g, (set_status g finished).
    split; [exact Hg|]. split; [apply update_finish, Hs | reflexivity].
  - unfold joinGame, loadGame.
    destruct (dir !! code) as [g|] eqn:Hg; [|left; reflexivity].
    destruct (status g) eqn:Hs; cbn [status_eqb negb]; try (left; reflexivity).
    destruct playerName as [playerName|]; [|left; reflexivity].
    destruct (_ || _); [left; reflexivity|].
    right; right. eexists code, g, _.
    split; [exact Hg|]. split; [apply update_join, Hs | reflexivity].
  - unfold startGame, loadGame.
    destruct (dir !! code) as [g|] eqn:Hg; [|left; reflexivity].
    destruct (status g) eqn:Hs; cbn [status_eqb negb]; try (left; reflexivity).
    right; right. eexists code, g, _.
    split; [exact Hg|]. split; [apply update_start, Hs | reflexivity].
  - unfold submitWord, loadGame.
    destruct (dir !! code) as [g|] eqn:Hg; [|left; reflexivity].
    destruct (status g) eqn:Hs; cbn [status_eqb negb]; try (left; reflexivity).
    unfold get_player.
    destruct (players g !! playerId) as [p|] eqn:Hp.
    + destruct (_ <? _)%nat; [left; reflexivity|].
      destruct (negb (canFormWord _ _)); [left; reflexivity|].
      destruct (negb (bool_decide _)); [left; reflexivity|].
      destruct (already_submitted _ _) eqn:Hdup; [left; reflexivity|].
      right; right. eexists code, g, _.
      split; [exact Hg|]. split; [eapply update_submit; eassumption | reflexivity].
    + destruct (bool_decide _); [|left; reflexivity].
      destruct (_ <? _)%nat; [left; reflexivity|].
      destruct (negb (canFormWord _ _)); [left; reflexivity|].
      destruct (negb (bool_decide _)); left; reflexivity.
  - unfold removeWord, loadGame.
    destruct (dir !! code) as [g|] eqn:Hg; [|left; reflexivity].
    destruct (status g) eqn:Hs; cbn [status_eqb negb]; try (left; reflexivity).
    unfold get_player.
    destruct (players g !! playerId) as [p|] eqn:Hp.
    + destruct (list_find _ _) as [[i e]|] eqn:Hfind; [|left; reflexivity].
      right; right. eexists code, g, _.
      split; [exact Hg|]. split; [eapply update_remove; eassumption | reflexivity].
    + destruct (bool_decide _); left; reflexivity.
Qed.

Lemma commit_unlinks codes :
  ∀ (dir : directory) c,
    commit (UnlinkFile <$> codes) dir !! c = dir !! c ∨
    commit (UnlinkFile <$> codes) dir !! c = None.
Proof.
  induction codes as [|k codes IH]; intros dir c; [left; reflexivity|].
  cbn [fmap list_fmap commit foldl perform].
  destruct (IH (delete k dir) c) as [H|H]; [|right; exact H].
  unfold commit in H. rewrite H.
  destruct (decide (k = c)) as [->|Hne].
  - right. apply lookup_delete_eq.
  - left. apply lookup_delete_ne, Hne.
Qed.

(** After an event, what is stored under a code is what was stored before,
    or nothing (the cleanup removed it), or an update of what was stored
    before, or a game just created under that code. *)
Lemma step_lookup e dir c :
  step e dir !! c = dir !! c ∨
  step e dir !! c = None ∨
  (∃ g g', dir !! c = Some g ∧ game_update g g' ∧ step e dir !! c = Some g') ∨
  (∃ random scrambled now,
     e = Request (CreateGame random scrambled now) ∧ c = generateGameCode random ∧
     step e dir !! c = Some (new_game random scrambled now)).
Proof.
  destruct e as [r | now]; cbn [step].
  - destruct (handle_effects r dir)
      as [-> | [(random & scrambled & now & -> & ->) | (code & g & g' & Hg & Hupd & ->)]].
    + left. reflexivity.
    + cbn [commit foldl perform].
      destruct (decide (generateGameCode random = c)) as [<-|Hne].
      * right; right; right. exists random, scrambled, now.
        split; [reflexivity|]. split; [reflexivity | apply lookup_insert_eq].
      * left. apply lookup_insert_ne, Hne.
    + cbn [commit foldl perform].
      destruct (decide (code = c)) as [<-|Hne].
      * right; right; left. exists g, g'.
        split; [exact Hg|]. split; [exact Hupd | apply lookup_insert_eq].
      * left. apply lookup_insert_ne, Hne.
  - set (old := filter (λ kv, now - createdAt kv.2 > 24 * 60 * 60 * 1000) (map_to_list dir)).
    assert (cleanup now dir = UnlinkFile <$> (fst <$> old)) as ->
      by (unfold cleanup; rewrite <- list_fmap_compose; reflexivity).
    destruct (commit_unlinks (fst <$> old) dir c) as [H|H];
      [left | right; left]; exact H.
Qed.

Lemma reachable_run es dir : reachable dir → reachable (run es dir).
Proof.
  revert dir. induction es as [|e es IH]; intros dir Hdir; [exact Hdir|].
  apply IH, reachable_step, Hdir.
Qed.

(** ** Invariants of the players of reachable directories *)

Section PlayerInvariant.

Variable P : player → Prop.
Hypothesis P_join : ∀ playerName, P (Player playerName [] 0).
Hypothesis P_submit : ∀ p wordUpper pts,
  P p → already_submitted wordUpper (words p) = false →
  P (Player (name p) (words p ++ [WordEntry wordUpper pts]) (score p + pts)).
Hypothesis P_remove : ∀ p wordUpper wordIndex removedWord,
  P p → list_find (λ w, word w = wordUpper) (words p) = Some (wordIndex, removedWord) →
  P (Player (name p) (delete wordIndex (words p)) (score p - points removedWord)).

Lemma game_update_players g g' :
  game_update g g' →
  (∀ playerId p, players g !! playerId = Some p → P p) →
  ∀ playerId p, players g' !! playerId = Some p → P p.
Proof.
  intros Hupd Hg playerId q.
  destruct Hupd as [Hs | pid playerName Hs | now Hs | pid p w pts Hs Hp Hdup
                   | pid p w i e Hs Hp Hfind]; cbn [players set_players set_status set_startTime];
    try apply Hg.
  - destruct (decide (pid = playerId)) as [->|Hne].
    + rewrite lookup_insert_eq. intros [= <-]. apply P_join.
    + rewrite lookup_insert_ne by exact Hne. apply Hg.
  - destruct (decide (pid = playerId)) as [->|Hne].
    + rewrite lookup_insert_eq. intros [= <-]. apply P_submit; [eapply Hg, Hp | exact Hdup].
    + rewrite lookup_insert_ne by exact Hne. apply Hg.
  - destruct (decide (pid = playerId)) as [->|Hne].
    + rewrite lookup_insert_eq. intros [= <-]. eapply P_remove; [eapply Hg, Hp | exact Hfind].
    + rewrite lookup_insert_ne by exact Hne. apply Hg.
Qed.

Lemma step_all_players e dir : all_players P dir → all_players P (step e dir).
Proof.
  intros Hdir code g' playerId p Hg' Hp.
  destruct (step_lookup e dir code)
    as [H | [H | [(g0 & g1 & Hg0 & Hupd & H) | (random & scrambled & now & _ & _ & H)]]];
    rewrite H in Hg'.
  - eapply Hdir; eassumption.
  - discriminate.
  - injection Hg' as <-.
    eapply (game_update_players _ _ Hupd); [|exact Hp].
    intros pid q Hq. eapply Hdir; eassumption.
  - injection Hg' as <-. cbn in Hp. rewrite lookup_empty in Hp. discriminate.
Qed.

Lemma reachable_all_players dir : reachable dir → all_players P dir.
Proof.
  induction 1 as [|e dir _ IH].
  - intros code g playerId p Hg. rewrite lookup_empty in Hg. discriminate.
  - apply step_all_players, IH.
Qed.

End PlayerInvariant.

Lemma total_points_app ws ws' :
  total_points (ws ++ ws') = total_points ws + total_points ws'.
Proof.
  unfold total_points.
  induction ws as [|w ws IH]; simpl; [reflexivity|].
  rewrite IH. lia.
Qed.

Lemma total_points_delete ws :
  ∀ i e, ws !! i = Some e → total_points (delete i ws) = total_points ws - points e.
Proof.
  unfold total_points.
  induction ws as [|w ws IH]; intros i e Hi; [discriminate|].
  destruct i as [|i]; simpl in *.
  - injection Hi as ->. lia.
  - rewrite (IH i e Hi). lia.
Qed.

(** C4: in every directory the server can reach, by any sequence of
    requests (word submissions and removals among them) and cleanups, the
    score of every player of every stored game is the sum of the points of
    the words in the player's list. *)
Theorem score_is_sum_of_points dir code game playerId p :
  reachable dir →
  dir !! code = Some game →
  players game !! playerId = Some p →
  score p = total_points (words p).
Proof.
  intros Hreach Hgame Hp.
  refine (reachable_all_players (λ p, score p = total_points (words p))
            _ _ _ dir Hreach code game playerId p Hgame Hp).
  - intros playerName. reflexivity.
  - intros q w pts Hq _. cbn [score words].
    rewrite total_points_app, Hq. unfold total_points. simpl. lia.
  - intros q w i e Hq Hfind. cbn [score words].
    apply list_find_Some in Hfind as (Hi & _).
    rewrite (total_points_delete _ _ _ Hi), Hq. reflexivity.
Qed.

(** C10: in every directory the server can reach, the words in the list of
    every player of every stored game are pairwise distinct. *)
Theorem words_are_distinct dir code game playerId p :
  reachable dir →
  dir !! code = Some game →
  players game !! playerId = Some p →
  NoDup (word <$> words p).
Proof.
  intros Hreach Hgame Hp.
  refine (reachable_all_players (λ p, NoDup (word <$> words p))
            _ _ _ dir Hreach code game playerId p Hgame Hp).
  - intros playerName. apply NoDup_nil_2.
  - intros q w pts Hq Hdup. cbn [words]. rewrite fmap_app. apply NoDup_app.
    split; [exact Hq|]. split; [|apply NoDup_singleton].
    apply already_submitted_false in Hdup.
    intros x Hx Hx'. apply list_elem_of_singleton in Hx'. cbn in Hx'.
    rewrite Hx' in Hx. exact (Hdup Hx).
  - intros q w i e Hq _. cbn [words].
    rewrite list_fmap_delete.
    exact (sublist_NoDup _ _ Hq (sublist_delete _ i)).
Qed.

(** ** The status of a game only moves forward *)

Lemma time_is_up_iff now start dur :
  time_is_up now start dur = true ↔ dur * 1000 ≤ now - start.
Proof.
  unfold time_is_up. rewrite Qle_bool_iff.
  unfold Qle, Qdiv, Qmult, Qinv, inject_Z; cbn. lia.
Qed.

Lemma game_update_status g g' :
  game_update g g' →
  (status_rank (status g) ≤ status_rank (status g'))%nat ∧ status g ≠ finished.
Proof.
  intros [Hs | pid playerName Hs | now Hs | pid p w pts Hs Hp Hdup | pid p w i e Hs Hp Hfind];
    cbn [status set_players set_status set_startTime]; rewrite Hs; cbn;
    (split; [lia | discriminate]).
Qed.

(** A stored game that has left the waiting state has a start time. *)
Lemma reachable_started dir code game :
  reachable dir →
  dir !! code = Some game →
  status game ≠ waiting →
  ∃ start, startTime game = Some start.
Proof.
  intros Hreach. revert code game.
  induction Hreach as [|e dir _ IH]; intros code g' Hg' Hs.
  - rewrite lookup_empty in Hg'. discriminate.
  - destruct (step_lookup e dir code)
      as [H | [H | [(g0 & g1 & Hg0 & Hupd & H) | (random & scrambled & now & _ & _ & H)]]];
      rewrite H in Hg'.
    + exact (IH _ _ Hg' Hs).
    + discriminate.
    + injection Hg' as <-.
      destruct Hupd as [Hs0 | pid playerName Hs0 | now Hs0 | pid p w pts Hs0 Hp Hdup
                       | pid p w i e' Hs0 Hp Hfind];
        cbn [status startTime set_players set_status set_startTime] in *;
        try (apply (IH _ _ Hg0); congruence); eauto.
    + injection Hg' as <-. cbn in Hs. congruence.
Qed.

(** Reading a game that is finished returns it as it is and writes nothing. *)
Lemma getGame_finished code now dir game :
  dir !! code = Some game → status game = finished →
  getGame code now dir = (json (GameBody game), []).
Proof.
  intros Hg Hs. unfold getGame, loadGame. rewrite Hg, Hs. reflexivity.
Qed.

(** Reading an active game whose time is up finishes it. *)
Lemma getGame_time_is_up code now dir game start :
  dir !! code = Some game → status game = active →
  startTime game = Some start → start ≠ 0 →
  duration game * 1000 ≤ now - start →
  getGame code now dir
    = (json (GameBody (set_status game finished)),
       [WriteFile code (set_status game finished)]).
Proof.
  intros Hg Hs Hstart Hnz Hup. unfold getGame, loadGame.
  rewrite Hg, Hstart, Hs. unfold truthy, to_number.
  change (default 0 (Some start)) with start. cbn [status_eqb andb].
  rewrite (proj2 (Z.eqb_neq _ _) Hnz). cbn [negb].
  rewrite (proj2 (time_is_up_iff _ _ _) Hup).
  reflexivity.
Qed.

Lemma run_reads_finished code game later :
  ∀ dir, dir !! code = Some game → status game = finished →
    run ((λ t, Request (GetGame code t)) <$> later) dir = dir.
Proof.
  induction later as [|t later IH]; intros dir Hg Hs; [reflexivity|].
  cbn [fmap list_fmap run foldl step handle].
  rewrite (getGame_finished _ t _ _ Hg Hs). cbn [snd commit foldl].
  apply (IH dir Hg Hs).
Qed.

(** C6, as amended: reading an active game whose start time is a clock
    reading other than 0 and whose elapsed time has reached its duration
    returns it with status finished and stores it so, and however often and
    at whatever times it is read afterwards, the answer and the stored record
    are that same game, with status finished.  An event either leaves the
    status of the game stored under a code where it is or further along the
    path waiting, active, finished (so a finished game stays finished), or it
    is a create request that drew this very code: [createGame] does not look
    whether the code is in use, and the new waiting game takes the place of
    the stored one, whatever its status was. *)
Theorem finished_is_final :
  (∀ dir code game start now,
     dir !! code = Some game →
     status game = active →
     startTime game = Some start →
     start ≠ 0 →
     duration game * 1000 ≤ now - start →
     ∃ game',
       (game' = set_status game finished ∧ status game' = finished) ∧
       (getGame code now dir).1 = json (GameBody game') ∧
       ∀ later : list Z,
         run ((λ t, Request (GetGame code t)) <$> (now :: later)) dir !! code
           = Some game' ∧
         ∀ t, (getGame code t
                 (run ((λ t, Request (GetGame code t)) <$> (now :: later)) dir)).1
              = json (GameBody game')) ∧
  (∀ e dir code game game',
     dir !! code = Some game →
     step e dir !! code = Some game' →
     ((status_rank (status game) ≤ status_rank (status game'))%nat ∧
      (status game = finished → status game' = finished)) ∨
     (∃ random scrambled now,
        e = Request (CreateGame random scrambled now) ∧
        code = generateGameCode random ∧
        game' = new_game random scrambled now ∧
        status game' = waiting)).
Proof.
  split.
  - intros dir code game start now Hg Hs Hstart Hnz Hup.
    pose proof (getGame_time_is_up _ _ _ _ _ Hg Hs Hstart Hnz Hup) as Hread.
    exists (set_status game finished).
    split; [split; reflexivity|].
    split; [rewrite Hread; reflexivity|].
    intros later.
    assert (run ((λ t, Request (GetGame code t)) <$> (now :: later)) dir
            = <[code := set_status game finished]> dir) as ->.
    { cbn [fmap list_fmap run foldl step handle]. rewrite Hread.
      cbn [snd commit foldl perform].
      apply (run_reads_finished code (set_status game finished));
        [apply lookup_insert_eq | reflexivity]. }
    split; [apply lookup_insert_eq|].
    intros t. rewrite (getGame_finished code t _ (set_status game finished));
      [reflexivity | apply lookup_insert_eq | reflexivity].
  - intros e dir code game game' Hg Hg'.
    destruct (step_lookup e dir code)
      as [H | [H | [(g0 & g1 & Hg0 & Hupd & H)
                   | (random & scrambled & now & He & Hc & H)]]].
    + left. rewrite H, Hg in Hg'. injection Hg' as <-.
      split; [lia | trivial].
    + rewrite H in Hg'. discriminate.
    + left. rewrite H in Hg'. rewrite Hg in Hg0.
      injection Hg' as <-. injection Hg0 as <-.
      destruct (game_update_status _ _ Hupd) as [Hrank Hnf].
      split; [exact Hrank | intros Hfin; contradiction].
    + right. exists random, scrambled, now.
      rewrite H in Hg'. injection Hg' as <-.
      split; [exact He|]. split; [exact Hc|]. split; reflexivity.
Qed.
(** ** Further properties of the word helpers *)

Lemma tally_count_Permutation c (l k : list jsstring) :
  l ≡ₚ k → tally_count c l = tally_count c k.
Proof. intros H. unfold tally_count. rewrite H. reflexivity. Qed.

(** Counts that fit make a sub-multiset. *)
Lemma counts_submseteq (w : list jsstring) :
  ∀ pool, (∀ c, (tally_count c w ≤ tally_count c pool)%nat) → w ⊆+ pool.
Proof.
  induction w as [|x w IH]; intros pool H; [apply submseteq_nil_l|].
  assert (x ∈ pool) as Hx.
  { specialize (H x). rewrite tally_count_cons, decide_True in H by reflexivity.
    unfold tally_count in H.
    destruct (filter (eq x) pool) as [|y ys] eqn:Hf; [simpl in H; lia|].
    assert (y ∈ filter (eq x) pool) as Hy by (rewrite Hf; left).
    apply list_elem_of_filter in Hy as [-> Hy]. exact Hy. }
  apply elem_of_Permutation in Hx as [pool' Hpool].
  rewrite Hpool. apply submseteq_skip, IH. intros c.
  specialize (H c). rewrite (tally_count_Permutation _ _ _ Hpool), !tally_count_cons in H.
  lia.
Qed.

Lemma submseteq_concat (l k : list jsstring) : l ⊆+ k → concat l ⊆+ concat k.
Proof.
  induction 1 as [|x l k _ IH|x y l|x l k _ IH|l k m _ IH1 _ IH2]; simpl.
  - constructor.
  - apply submseteq_skips_l, IH.
  - apply Permutation_submseteq. rewrite !app_assoc.
    apply Permutation_app_tail, Permutation_app_comm.
  - apply submseteq_inserts_l, IH.
  - etrans; eassumption.
Qed.

Lemma string_iterator_cons u v s :
  string_iterator (u :: v :: s)
  = if is_high_surrogate u && is_low_surrogate v
    then [u; v] :: string_iterator s
    else [u] :: string_iterator (v :: s).
Proof. reflexivity. Qed.

(** Putting the characters of a string back together gives the string. *)
Lemma concat_string_iterator s : concat (string_iterator s) = s.
Proof.
  assert (∀ n s, (length s ≤ n)%nat → concat (string_iterator s) = s) as H.
  { clear s. induction n as [|n IH]; intros s Hn.
    - destruct s; [reflexivity | simpl in Hn; lia].
    - destruct s as [|u [|v s]]; [reflexivity..|].
      rewrite string_iterator_cons.
      destruct (is_high_surrogate u && is_low_surrogate v); cbn [concat].
      + rewrite IH by (simpl in *; lia). reflexivity.
      + rewrite IH by (simpl in *; lia). reflexivity. }
  apply (H (length s)). lia.
Qed.

Lemma canFormWord_submseteq (w gameLetters : jsstring) :
  canFormWord w gameLetters = true → w ⊆+ gameLetters.
Proof.
  intros H. unfold canFormWord in H. rewrite consume_tally in H.
  apply counts_submseteq, submseteq_concat in H.
  rewrite !concat_string_iterator in H. exact H.
Qed.

Lemma canFormWord_length_bound (w gameLetters : jsstring) :
  canFormWord w gameLetters = true → (length w ≤ length gameLetters)%nat.
Proof. intros H. apply submseteq_length, canFormWord_submseteq, H. Qed.

(** X1: A word that can be formed takes its code units from the pool, each at
    most as often as the pool has it; so it is at most as long as the pool. *)
Theorem canFormWord_within_pool (w gameLetters : jsstring) :
  canFormWord w gameLetters = true →
  w ⊆+ gameLetters ∧ (length w ≤ length gameLetters)%nat.
Proof.
  intros H. split; [apply canFormWord_submseteq, H | apply canFormWord_length_bound, H].
Qed.

Lemma no_pairs_Permutation l k : l ≡ₚ k → no_pairs l → no_pairs k.
Proof. unfold no_pairs. intros H. rewrite H. trivial. Qed.

(** X2: Two pools whose characters are rearrangements of each other form the
    same words; the characters are the code points that [for...of] yields.
    Rearranging the code units of a pool, as [split('')] followed by a sort
    does in [generateLetters], rearranges its characters when the pool has no
    high-surrogate code unit (D800 to DBFF), and then forms the same words.
    (With one, two code units can come together as a pair or come apart, and
    the characters change.) *)
Theorem canFormWord_scrambled (w gameLetters scrambled : jsstring) :
  (string_iterator scrambled ≡ₚ string_iterator gameLetters →
   canFormWord w scrambled = canFormWord w gameLetters) ∧
  (no_pairs gameLetters →
   scrambled ≡ₚ gameLetters →
   canFormWord w scrambled = canFormWord w gameLetters).
Proof.
  assert (string_iterator scrambled ≡ₚ string_iterator gameLetters →
          canFormWord w scrambled = canFormWord w gameLetters) as Hpoints.
  { intros Hperm. apply eq_true_iff_eq. unfold canFormWord. rewrite !consume_tally.
    split; intros H c; specialize (H c);
      rewrite (tally_count_Permutation c _ _ Hperm) in *; exact H. }
  split; [exact Hpoints|].
  intros Hl Hperm. apply Hpoints.
  assert (no_pairs scrambled) as Hs by (eapply no_pairs_Permutation; [symmetry|]; eassumption).
  rewrite (string_iterator_units _ Hs), (string_iterator_units _ Hl), Hperm.
  reflexivity.
Qed.

(** X3: The edge cases of [canFormWord]: the empty word can be formed from any
    pool, only the empty word can be formed from the empty pool, and the
    whole pool can be formed from itself. *)
Theorem canFormWord_edges (w gameLetters : jsstring) :
  canFormWord [] gameLetters = true ∧
  (canFormWord w [] = true ↔ w = []) ∧
  canFormWord gameLetters gameLetters = true.
Proof.
  split; [reflexivity|]. split.
  - split; [|intros ->; reflexivity].
    intros H. apply canFormWord_length_bound in H.
    destruct w; [reflexivity | simpl in H; lia].
  - unfold canFormWord. apply consume_tally. intros c. lia.
Qed.

(** X4: The points grow with the length from length 3 on, where they are at
    least 100; below length 3 the formula of the last line of
    [calculatePoints] applies and gives a negative number. *)
Theorem calculatePoints_growth (a b : jsstring) :
  ((3 ≤ length a)%nat → 100 ≤ calculatePoints a) ∧
  ((length a < 3)%nat → calculatePoints a < 0) ∧
  ((3 ≤ length a)%nat → (length a < length b)%nat →
     calculatePoints a < calculatePoints b) ∧
  (length a = length b → calculatePoints a = calculatePoints b).
Proof.
  unfold calculatePoints; cbv zeta.
  repeat split; intros;
    repeat (match goal with
            | |- context [Z.eqb ?x ?y] => destruct (Z.eqb_spec x y)
            end); lia.
Qed.

(** ** What a handler answers and writes *)


Lemma length_eqb_nil (s : jsstring) : (length s =? 0)%nat = false ↔ s ≠ [].
Proof.
  destruct s; simpl; split; intros H; congruence.
Qed.

(** The three ways a request can end: nothing is written and the answer is
    a refusal, a success without change or the stored game as it is; or a
    new game is written; or the loaded game is written back changed and the
    answer reports the change. *)
Lemma handle_cases r dir :
  ((handle r dir).2 = [] ∧
   ((snapshot (handle r dir).1 = None ∧
     (refusal (handle r dir).1 ∨ (handle r dir).1 = json SuccessBody)) ∨
    ∃ g, dir !! request_code r = Some g ∧ (handle r dir).1 = json (GameBody g))) ∨
  (∃ random scrambled now,
     r = CreateGame random scrambled now ∧
     handle r dir
       = (json (CreatedBody (generateGameCode random) (generateLetters scrambled)),
          [WriteFile (generateGameCode random) (new_game random scrambled now)])) ∨
  (∃ g g',
     dir !! request_code r = Some g ∧ handled g r g' ∧
     (handle r dir).2 = [WriteFile (request_code r) g'] ∧
     http_status (handle r dir).1 = 200 ∧
     match http_body (handle r dir).1 with
     | GameBody x | JoinedBody _ x => x = g'
     | AcceptedBody _ _ | SuccessBody => True
     | _ => False
     end).
Proof.
  assert (∀ c msg, refusal (status_json c (ErrorBody msg)) ↔ c ≠ 200) as Herr.
  { intros c msg. unfold refusal. cbn. split; [intros [H|[? H]]; [exact H | discriminate]|auto]. }
  destruct r as [random scrambled now | code now | code playerName stamp | code now
                | code playerId reqWord | code playerId reqWord];
    cbn [handle request_code].
  - right; left. exists random, scrambled, now. split; reflexivity.
  - unfold getGame, loadGame.
    destruct (dir !! code) as [g|] eqn:Hg;
      [|left; split; [reflexivity | left; split; [reflexivity | left; left; discriminate]]].
    destruct (status_eqb (status g) active && truthy (startTime g)) eqn:Hc;
      [|left; split; [reflexivity | right; eauto]].
    apply andb_true_iff in Hc as [Hs Ht].
    destruct (time_is_up _ _ _) eqn:Hup;
      [|left; split; [reflexivity | right; eauto]].
    right; right. exists g, (set_status g finished).
    split; [reflexivity|]. split; [|repeat split].
    apply handled_finish; [destruct (status g); (discriminate || reflexivity) | exact Ht | exact Hup].
  - unfold joinGame, loadGame.
    destruct (dir !! code) as [g|] eqn:Hg;
      [|left; split; [reflexivity | left; split; [reflexivity | left; left; discriminate]]].
    destruct (status g) eqn:Hs; cbn [status_eqb negb];
      try (left; split; [reflexivity | left; split; [reflexivity | left; left; discriminate]]).
    destruct playerName as [playerName|];
      [|left; split; [reflexivity | left; split; [reflexivity | left; left; discriminate]]].
    destruct ((length playerName =? 0)%nat || (length (trim playerName) =? 0)%nat) eqn:Hn;
      [left; split; [reflexivity | left; split; [reflexivity | left; left; discriminate]]|].
    apply orb_false_iff in Hn as [_ Hn]. apply length_eqb_nil in Hn.
    right; right. eexists g, _.
    split; [reflexivity|]. split; [apply handled_join; assumption|]. repeat split.
  - unfold startGame, loadGame.
    destruct (dir !! code) as [g|] eqn:Hg;
      [|left; split; [reflexivity | left; split; [reflexivity | left; left; discriminate]]].
    destruct (status g) eqn:Hs; cbn [status_eqb negb];
      try (left; split; [reflexivity | left; split; [reflexivity | left; left; discriminate]]).
    right; right. eexists g, _.
    split; [reflexivity|]. split; [apply handled_start; assumption|]. repeat split.
  - unfold submitWord, loadGame.
    destruct (dir !! code) as [g|] eqn:Hg;
      [|left; split; [reflexivity | left; split; [reflexivity | left; left; discriminate]]].
    destruct (status g) eqn:Hs; cbn [status_eqb negb];
      try (left; split; [reflexivity | left; split; [reflexivity | left; left; discriminate]]).
    unfold get_player.
    destruct (players g !! playerId) as [p|] eqn:Hp.
    + destruct (Nat.ltb_spec (length (toUpperCase (trim reqWord))) 3) as [Hlt|Hlen];
        [left; split; [reflexivity | left; split; [reflexivity | left; right; eauto]]|].
      destruct (canFormWord _ _) eqn:Hform; cbn [negb];
        [|left; split; [reflexivity | left; split; [reflexivity | left; right; eauto]]].
      destruct (bool_decide _) eqn:Hdict; cbn [negb];
        [|left; split; [reflexivity | left; split; [reflexivity | left; right; eauto]]].
      apply bool_decide_eq_true in Hdict.
      destruct (already_submitted _ _) eqn:Hdup;
        [left; split; [reflexivity | left; split; [reflexivity | left; right; eauto]]|].
      apply already_submitted_false in Hdup.
      right; right. eexists g, _.
      split; [reflexivity|]. split; [apply handled_submit; eassumption|]. repeat split.
    + destruct (bool_decide _);
        [|left; split; [reflexivity | left; split; [reflexivity | left; left; discriminate]]].
      destruct (_ <? _)%nat;
        [left; split; [reflexivity | left; split; [reflexivity | left; right; eauto]]|].
      destruct (negb (canFormWord _ _));
        [left; split; [reflexivity | left; split; [reflexivity | left; right; eauto]]|].
      destruct (negb (bool_decide _));
        left; (split; [reflexivity | left; split; [reflexivity|]]);
        [left; right; eauto | left; left; discriminate].
  - unfold removeWord, loadGame.
    destruct (dir !! code) as [g|] eqn:Hg;
      [|left; split; [reflexivity | left; split; [reflexivity | left; left; discriminate]]].
    destruct (status g) eqn:Hs; cbn [status_eqb negb];
      try (left; split; [reflexivity | left; split; [reflexivity | left; left; discriminate]]).
    unfold get_player.
    destruct (players g !! playerId) as [p|] eqn:Hp.
    + destruct (list_find _ _) as [[i e]|] eqn:Hfind;
        [|left; split; [reflexivity | left; split; [reflexivity | right; reflexivity]]].
      right; right. eexists g, _.
      split; [reflexivity|]. split; [eapply handled_remove; eassumption|]. repeat split.
    + destruct (bool_decide _);
        left; (split; [reflexivity | left; split; [reflexivity | left; left; discriminate]]).
Qed.

(** X5: A request that is refused (an error status, or a rejected word) writes
    nothing: the directory is as before. *)
Theorem refusals_write_nothing r dir :
  refusal (handle r dir).1 →
  (handle r dir).2 = [] ∧ step (Request r) dir = dir.
Proof.
  intros Href.
  assert ((handle r dir).2 = []) as H.
  { destruct (handle_cases r dir)
      as [[H _] | [(random & scrambled & now & -> & H) | (g & g' & _ & _ & _ & Hst & Hb)]].
    - exact H.
    - rewrite H in Href. destruct Href as [Href | [reason Href]];
        [contradiction Href; reflexivity | discriminate].
    - destruct Href as [Href | [reason Href]]; [contradiction|].
      rewrite Href in Hb. contradiction. }
  split; [exact H|]. cbn [step]. rewrite H. reflexivity.
Qed.

Lemma other_codes_untouched r dir code :
  code ≠ request_code r →
  step (Request r) dir !! code = dir !! code.
Proof.
  intros Hne. cbn [step].
  destruct (handle_cases r dir)
    as [[H _] | [(random & scrambled & now & -> & H) | (g & g' & _ & _ & H & _)]];
    rewrite H; cbn [snd commit foldl perform request_code] in *; [reflexivity | |];
    apply lookup_insert_ne; congruence.
Qed.

(** X6: A request for a plain code leaves the game stored under any other
    plain code as it is; a create request is a request for the code it
    draws.  (The codes are plain so that they are the names of two different
    files: a code that is a path can lead to the file of another code.) *)
Theorem requests_are_isolated r dir code :
  plain_code (request_code r) = true →
  plain_code code = true →
  code ≠ request_code r →
  step (Request r) dir !! code = dir !! code.
Proof. intros _ _. apply other_codes_untouched. Qed.

(** X7: The game record sent in an answer (to a read, a join or a start) is
    the record stored under the code when the request is done. *)
Theorem answers_show_stored_game r dir g :
  snapshot (handle r dir).1 = Some g →
  step (Request r) dir !! request_code r = Some g.
Proof.
  intros Hsnap. cbn [step].
  destruct (handle_cases r dir)
    as [[H [[Hnone _] | (g0 & Hg0 & Hresp)]]
       | [(random & scrambled & now & -> & H) | (g0 & g' & _ & _ & H & _ & Hb)]].
  - congruence.
  - rewrite H, Hresp in *. cbn in Hsnap. injection Hsnap as <-. exact Hg0.
  - rewrite H in Hsnap. discriminate.
  - rewrite H. cbn [snd commit foldl perform]. rewrite lookup_insert_eq.
    unfold snapshot in Hsnap.
    destruct (http_body (handle r dir).1); try discriminate;
      injection Hsnap as <-; rewrite Hb; reflexivity.
Qed.

(** X8: A request for a plain code under which no game is stored, other than
    a create request, is answered 404 "Game not found" and writes nothing.
    (A code that is a path can lead to the file of a stored game, and is
    then answered as the code of that game would be.) *)
Theorem unknown_code_is_not_found r dir :
  plain_code (request_code r) = true →
  dir !! request_code r = None →
  (∀ random scrambled now, r ≠ CreateGame random scrambled now) →
  handle r dir = (Response 404 (ErrorBody "Game not found"), []).
Proof.
  intros _ Hnone Hr.
  destruct r as [random scrambled now | code now | code playerName stamp | code now
                | code playerId reqWord | code playerId reqWord];
    cbn [handle request_code] in *;
    [exfalso; eapply Hr; reflexivity | ..];
    unfold getGame, joinGame, startGame, submitWord, removeWord, loadGame;
    rewrite Hnone; reflexivity.
Qed.

(** X9: On an active game, a word request for a player identifier that the game
    does not have (and that is no property of [Object.prototype]) is
    answered 400 "Player not found" before the word is looked at, and
    writes nothing. *)
Theorem unknown_player_is_refused code playerId dir game :
  loadGame code dir = Some game →
  status game = active →
  players game !! playerId = None →
  playerId ∉ object_prototype_keys →
  ∀ reqWord,
    submitWord code playerId reqWord dir
      = (Response 400 (ErrorInvalidBody "Player not found"), []) ∧
    removeWord code playerId reqWord dir
      = (Response 400 (ErrorBody "Player not found"), []).
Proof.
  intros Hload Hs Hp Hproto reqWord.
  unfold submitWord, removeWord, get_player.
  rewrite Hload, Hs, Hp, (bool_decide_eq_false_2 _ Hproto). split; reflexivity.
Qed.

(** ** White space and names *)

Lemma trimStart_clean s : starts_clean (trimStart s).
Proof.
  induction s as [|u s IH]; [exact I|].
  simpl. destruct (is_white_space u) eqn:Hu; [exact IH | exact Hu].
Qed.

Lemma trimStart_id s : starts_clean s → trimStart s = s.
Proof. destruct s as [|u s]; [reflexivity|]. simpl. intros ->. reflexivity. Qed.

Lemma trimStart_split s : ∃ k, s = k ++ trimStart s ∧ blank k.
Proof.
  induction s as [|u s (k & Hk & Hblank)]; [exists []; split; [reflexivity | constructor]|].
  simpl. destruct (is_white_space u) eqn:Hu.
  - exists (u :: k). split; [simpl; congruence | constructor; assumption].
  - exists []. split; [reflexivity | constructor].
Qed.

Lemma trimStart_nil s : trimStart s = [] ↔ blank s.
Proof.
  split.
  - intros H. destruct (trimStart_split s) as (k & Hk & Hblank).
    rewrite H, app_nil_r in Hk. subst k. exact Hblank.
  - induction 1 as [|u s Hu _ IH]; [reflexivity|]. simpl. rewrite Hu. exact IH.
Qed.

Lemma blank_clean s : blank s → starts_clean s → s = [].
Proof. intros Hb Hc. rewrite <- (trimStart_id _ Hc). apply trimStart_nil, Hb. Qed.

(** [trim] returns the empty string exactly for the blank strings. *)
Lemma trim_nil s : trim s = [] ↔ blank s.
Proof.
  unfold trim. split.
  - intros H.
    assert (trimStart (rev (trimStart s)) = []) as H'
      by (rewrite <- (rev_involutive (trimStart _)), H; reflexivity).
    apply trimStart_nil in H'.
    assert (blank (trimStart s)) as Hb.
    { unfold blank in *. rewrite <- (rev_involutive (trimStart s)).
      apply Forall_rev. exact H'. }
    apply trimStart_nil. apply blank_clean; [exact Hb | apply trimStart_clean].
  - intros H. apply trimStart_nil in H. rewrite H. reflexivity.
Qed.

(** What [trim] returns neither begins nor ends with white space, so
    trimming it again changes nothing. *)
Lemma trim_trim s : trim (trim s) = trim s.
Proof.
  unfold trim.
  set (t := trimStart s). set (r := trimStart (rev t)).
  assert (starts_clean (rev r)) as Hclean.
  { destruct (trimStart_split (rev t)) as (k & Hk & _). fold r in Hk.
    assert (t = rev r ++ rev k) as Ht
      by (rewrite <- rev_app_distr, <- Hk, rev_involutive; reflexivity).
    pose proof (trimStart_clean s) as Hc. fold t in Hc. rewrite Ht in Hc.
    destruct (rev r); [exact I | exact Hc]. }
  rewrite (trimStart_id _ Hclean), rev_involutive.
  rewrite (trimStart_id r) by apply trimStart_clean.
  reflexivity.
Qed.

(** ** Joining and starting *)

(** X10: Joining a waiting game needs a name with something other than white
    space in it: without a name, or with a blank one, the answer is 400
    "Player name required" and nothing is written; otherwise a player with
    the trimmed name, no words and score 0 is stored under the new
    identifier, and the answer carries the identifier and the game. *)
Theorem joinGame_needs_a_name code stamp dir game :
  loadGame code dir = Some game →
  status game = waiting →
  joinGame code None stamp dir
    = (Response 400 (ErrorBody "Player name required"), []) ∧
  ∀ playerName,
    (blank playerName →
       joinGame code (Some playerName) stamp dir
         = (Response 400 (ErrorBody "Player name required"), [])) ∧
    (¬ blank playerName →
       joinGame code (Some playerName) stamp dir
         = (Response 200
              (JoinedBody (js "player_" ++ stamp)
                 (set_players game
                    (<[js "player_" ++ stamp := Player (trim playerName) [] 0]>
                       (players game)))),
            [WriteFile code
               (set_players game
                  (<[js "player_" ++ stamp := Player (trim playerName) [] 0]>
                     (players game)))]) ∧
       stored_player (step (Request (JoinGame code (Some playerName) stamp)) dir)
                     code (js "player_" ++ stamp)
         = Some (Player (trim playerName) [] 0)).
Proof.
  intros Hload Hs. unfold joinGame. rewrite Hload, Hs. cbn [status_eqb negb].
  split; [reflexivity|]. intros playerName. split.
  - intros Hblank. apply trim_nil in Hblank. rewrite Hblank.
    cbn [length Nat.eqb]. rewrite orb_true_r. reflexivity.
  - intros Hname.
    assert (trim playerName ≠ []) as Htrim by (rewrite trim_nil; exact Hname).
    assert (playerName ≠ []) as Hne by (intros ->; apply Hname; constructor).
    apply length_eqb_nil in Htrim, Hne.
    assert (joinGame code (Some playerName) stamp dir
            = (Response 200
                 (JoinedBody (js "player_" ++ stamp)
                    (set_players game
                       (<[js "player_" ++ stamp := Player (trim playerName) [] 0]>
                          (players game)))),
               [WriteFile code
                  (set_players game
                     (<[js "player_" ++ stamp := Player (trim playerName) [] 0]>
                        (players game)))])) as Hjoin.
    { unfold joinGame. rewrite Hload, Hs. cbn [status_eqb negb].
      rewrite Htrim, Hne. reflexivity. }
    unfold joinGame in Hjoin. rewrite Hload, Hs in Hjoin. cbn [status_eqb negb] in Hjoin.
    split; [exact Hjoin|].
    cbn [step handle]. unfold joinGame. rewrite Hload, Hs. cbn [status_eqb negb].
    rewrite Hjoin. cbn [snd commit foldl perform].
    unfold stored_player. rewrite lookup_insert_eq. cbn. apply lookup_insert_eq.
Qed.

(** X11: Starting a waiting game stores it as active with the time of the
    request as its start time; every later start request for it is answered
    400 "Game already started" and writes nothing, so the start time
    stays. *)
Theorem startGame_only_once code now dir game :
  loadGame code dir = Some game →
  status game = waiting →
  startGame code now dir
    = (Response 200 (GameBody (set_startTime (set_status game active) now)),
       [WriteFile code (set_startTime (set_status game active) now)]) ∧
  ∀ later,
    startGame code later (step (Request (StartGame code now)) dir)
      = (Response 400 (ErrorBody "Game already started"), []).
Proof.
  intros Hload Hs.
  assert (startGame code now dir
          = (Response 200 (GameBody (set_startTime (set_status game active) now)),
             [WriteFile code (set_startTime (set_status game active) now)])) as Hstart.
  { unfold startGame. rewrite Hload, Hs. reflexivity. }
  split; [exact Hstart|]. intros later.
  cbn [step handle]. rewrite Hstart. cbn [snd commit foldl perform].
  unfold startGame, loadGame. rewrite lookup_insert_eq. reflexivity.
Qed.

(** ** How events change a stored game *)

(** After an event, what is stored under a code is what was stored before,
    or nothing (only the cleanup removes), or what the handler of a request
    for that code wrote back, or a game just created under that code. *)
Lemma step_cases e dir c :
  step e dir !! c = dir !! c ∨
  (∃ now, e = CleanupTick now ∧ step e dir !! c = None) ∨
  (∃ r g g',
     e = Request r ∧ request_code r = c ∧ dir !! c = Some g ∧ handled g r g' ∧
     step e dir !! c = Some g') ∨
  (∃ random scrambled now,
     e = Request (CreateGame random scrambled now) ∧ c = generateGameCode random ∧
     step e dir !! c = Some (new_game random scrambled now)).
Proof.
  destruct e as [r | now].
  - destruct (decide (c = request_code r)) as [->|Hne];
      [|left; apply other_codes_untouched].
    2: exact Hne.
    cbn [step].
    destruct (handle_cases r dir)
      as [[H _] | [(random & scrambled & now & -> & H) | (g & g' & Hg & Hupd & H & _)]];
      rewrite H; cbn [snd commit foldl perform request_code].
    + left. reflexivity.
    + right; right; right. exists random, scrambled, now.
      split; [reflexivity|]. split; [reflexivity | apply lookup_insert_eq].
    + right; right; left. exists r, g, g'.
      split; [reflexivity|]. split; [reflexivity|]. split; [exact Hg|].
      split; [exact Hupd | apply lookup_insert_eq].
  - cbn [step].
    set (old := filter (λ kv, now - createdAt kv.2 > 24 * 60 * 60 * 1000) (map_to_list dir)).
    assert (cleanup now dir = UnlinkFile <$> (fst <$> old)) as ->
      by (unfold cleanup; rewrite <- list_fmap_compose; reflexivity).
    destruct (commit_unlinks (fst <$> old) dir c) as [H|H];
      [left; exact H | right; left; eauto].
Qed.






(** X15: A game is finished by nothing but a read: if an event turns a stored
    game finished, the event is a read of that game, the game was active,
    and at the time of the read its duration had elapsed since its start.
    No timer finishes a game, and no word request does. *)
Theorem game_finishes_only_when_read e dir code g g' :
  dir !! code = Some g →
  step e dir !! code = Some g' →
  status g ≠ finished →
  status g' = finished →
  ∃ now start,
    e = Request (GetGame code now) ∧ status g = active ∧
    startTime g = Some start ∧ duration g * 1000 ≤ now - start ∧
    g' = set_status g finished.
Proof.
  intros Hg Hg' Hnot Hfin.
  destruct (step_cases e dir code)
    as [H | [(now & _ & H) | [(r & g0 & g1 & -> & Hcode & Hg0 & Hupd & H)
                            | (random & scrambled & now & -> & -> & H)]]].
  - congruence.
  - congruence.
  - rewrite H in Hg'. rewrite Hg in Hg0. injection Hg' as <-. injection Hg0 as <-.
    destruct Hupd as [c now Hs Ht Hup | c playerName stamp Hs _ | c now Hs
                     | c playerId reqWord p Hs Hp _ _ _ _
                     | c playerId reqWord p i e Hs Hp Hfind];
      cbn [status set_players set_status set_startTime request_code] in *;
      try congruence.
    destruct (startTime g) as [start|] eqn:Hstart; [|discriminate].
    exists now, start. subst c.
    repeat split; try assumption. apply time_is_up_iff. exact Hup.
  - rewrite H in Hg'. injection Hg' as <-. discriminate.
Qed.

(** ** What holds of every stored game *)

Lemma player_ok_transfer g g' playerId p :
  letters g' = letters g →
  (status g' = waiting → status g = waiting) →
  player_ok g playerId p → player_ok g' playerId p.
Proof.
  intros Hl Hs (Hid & Hname & Htrim & Hwords & Hnodup & Hscore & Hwait).
  repeat split; try assumption.
  - eapply Forall_impl; [exact Hwords|]. intros e (? & ? & ? & ?).
    repeat split; try assumption. rewrite Hl. assumption.
  - intros H. apply Hwait, Hs, H.
Qed.

Lemma handled_ok code g r g' : handled g r g' → game_ok code g → game_ok code g'.
Proof.
  intros Hupd (Hcode & Hdur & Hwait & Hplayers).
  destruct Hupd as [c now Hs Ht Hup | c playerName stamp Hs Hname | c now Hs
                   | c playerId reqWord p Hs Hp Hlen Hform Hdict Hnew
                   | c playerId reqWord p i e Hs Hp Hfind].
  - split; [exact Hcode|]. split; [exact Hdur|]. split.
    + cbn. split; [discriminate|]. intros H. apply Hwait in H. congruence.
    + intros pid q Hq. cbn in Hq.
      apply (player_ok_transfer g); [reflexivity | discriminate | apply Hplayers, Hq].
  - split; [exact Hcode|]. split; [exact Hdur|]. split; [exact Hwait|].
    intros pid q. cbn [players set_players].
    destruct (decide (pid = js "player_" ++ stamp)) as [->|Hne].
    + rewrite lookup_insert_eq. intros [= <-].
      repeat split; cbn; eauto using trim_trim, NoDup_nil_2.
    + rewrite lookup_insert_ne by congruence. intros Hq.
      apply (player_ok_transfer g); [reflexivity | trivial | apply Hplayers, Hq].
  - split; [exact Hcode|]. split; [exact Hdur|]. split.
    + cbn. split; discriminate.
    + intros pid q Hq. cbn in Hq.
      apply (player_ok_transfer g); [reflexivity | discriminate | apply Hplayers, Hq].
  - split; [exact Hcode|]. split; [exact Hdur|]. split; [exact Hwait|].
    intros pid q. cbn [players set_players].
    destruct (decide (pid = playerId)) as [->|Hne].
    + rewrite lookup_insert_eq. intros [= <-].
      destruct (Hplayers _ _ Hp) as (Hid & Hn & Htrim & Hwords & Hnodup & Hscore & _).
      repeat split; cbn [name words score]; try assumption.
      * apply Forall_app. split; [exact Hwords|].
        constructor; [|constructor]. repeat split; assumption.
      * rewrite fmap_app. apply NoDup_app.
        split; [exact Hnodup|]. split; [|apply NoDup_singleton].
        intros x Hx Hx'. apply list_elem_of_singleton in Hx'. cbn in Hx'.
        rewrite Hx' in Hx. exact (Hnew Hx).
      * rewrite total_points_app, Hscore. unfold total_points. simpl. lia.
      * intros H. cbn in H. congruence.
    + rewrite lookup_insert_ne by congruence. intros Hq.
      apply (player_ok_transfer g); [reflexivity | trivial | apply Hplayers, Hq].
  - split; [exact Hcode|]. split; [exact Hdur|]. split; [exact Hwait|].
    intros pid q. cbn [players set_players].
    destruct (decide (pid = playerId)) as [->|Hne].
    + rewrite lookup_insert_eq. intros [= <-].
      destruct (Hplayers _ _ Hp) as (Hid & Hn & Htrim & Hwords & Hnodup & Hscore & _).
      apply list_find_Some in Hfind as (Hi & _).
      repeat split; cbn [name words score]; try assumption.
      * apply Forall_delete, Hwords.
      * rewrite list_fmap_delete. exact (sublist_NoDup _ _ Hnodup (sublist_delete _ i)).
      * rewrite (total_points_delete _ _ _ Hi), Hscore. reflexivity.
      * intros H. cbn in H. congruence.
    + rewrite lookup_insert_ne by congruence. intros Hq.
      apply (player_ok_transfer g); [reflexivity | trivial | apply Hplayers, Hq].
Qed.

Lemma reachable_game_ok dir code g :
  reachable dir → dir !! code = Some g → game_ok code g.
Proof.
  intros Hreach. revert code g.
  induction Hreach as [|e dir _ IH]; intros code g' Hg'.
  - rewrite lookup_empty in Hg'. discriminate.
  - destruct (step_cases e dir code)
      as [H | [(now & _ & H) | [(r & g0 & g1 & _ & _ & Hg0 & Hupd & H)
                              | (random & scrambled & now & _ & -> & H)]]];
      rewrite H in Hg'.
    + apply IH, Hg'.
    + discriminate.
    + injection Hg' as <-. eapply handled_ok; [exact Hupd | apply IH, Hg0].
    + injection Hg' as <-.
      split; [reflexivity|]. split; [reflexivity|]. split; [split; reflexivity|].
      intros pid q Hq. cbn in Hq. rewrite lookup_empty in Hq. discriminate.
Qed.

(** X16: Every stored game carries the code it is stored under and the
    configured duration, and has a start time exactly if it is no longer
    waiting; while it is waiting, no player of it has a word or a point. *)
Theorem stored_games_are_consistent dir code g :
  reachable dir →
  dir !! code = Some g →
  gameCode g = code ∧
  duration g = ROUND_DURATION ∧
  (status g = waiting ↔ startTime g = None) ∧
  (status g = waiting →
     ∀ playerId p, players g !! playerId = Some p → words p = [] ∧ score p = 0).
Proof.
  intros Hreach Hg.
  destruct (reachable_game_ok _ _ _ Hreach Hg) as (Hcode & Hdur & Hwait & Hplayers).
  split; [exact Hcode|]. split; [exact Hdur|]. split; [exact Hwait|].
  intros Hs playerId p Hp.
  destruct (Hplayers _ _ Hp) as (_ & _ & _ & _ & _ & Hscore & Hw).
  split; [apply Hw, Hs | rewrite Hscore, (Hw Hs); reflexivity].
Qed.

(** X17: Every player of a stored game has an identifier that begins with
    "player_" and a name that is not empty and has no white space around
    it; a word request with a stored identifier finds the player record
    itself, never a property inherited from [Object.prototype]. *)
Theorem stored_players_are_well_formed dir code g playerId p :
  reachable dir →
  dir !! code = Some g →
  players g !! playerId = Some p →
  (∃ stamp, playerId = js "player_" ++ stamp) ∧
  name p ≠ [] ∧ trim (name p) = name p ∧
  get_player (players g) playerId = Own p.
Proof.
  intros Hreach Hg Hp.
  destruct (reachable_game_ok _ _ _ Hreach Hg) as (_ & _ & _ & Hplayers).
  destruct (Hplayers _ _ Hp) as (Hid & Hname & Htrim & _).
  repeat split; try assumption. apply get_player_own, Hp.
Qed.

(** X18: Every word in a player's list passed the checks of [submitWord]: it has
    at least 3 and at most as many code units as the game has letters, can
    be formed from the letters of the game, is in the dictionary, and
    carries the points of its length. *)
Theorem listed_words_are_valid dir code g playerId p e :
  reachable dir →
  dir !! code = Some g →
  players g !! playerId = Some p →
  e ∈ words p →
  (3 ≤ length (word e) ≤ length (letters g))%nat ∧
  canFormWord (word e) (letters g) = true ∧
  word e ∈ wordSet ∧
  points e = calculatePoints (word e).
Proof.
  intros Hreach Hg Hp He.
  destruct (reachable_game_ok _ _ _ Hreach Hg) as (_ & _ & _ & Hplayers).
  destruct (Hplayers _ _ Hp) as (_ & _ & _ & Hwords & _).
  rewrite Forall_forall in Hwords.
  destruct (Hwords _ He) as (Hpts & Hlen & Hform & Hdict).
  repeat split; try assumption.
  apply canFormWord_length_bound, Hform.
Qed.

Lemma total_points_at_least (g : game) (ws : list word_entry) :
  Forall (entry_ok g) ws → 100 * Z.of_nat (length ws) ≤ total_points ws.
Proof.
  unfold total_points.
  induction 1 as [|e ws (Hpts & Hlen & _) _ IH]; [reflexivity|].
  cbn [foldr length]. rewrite Hpts.
  assert (100 ≤ calculatePoints (word e)) as Hmin.
  { unfold calculatePoints; cbv zeta.
    repeat (match goal with
            | |- context [Z.eqb ?x ?y] => destruct (Z.eqb_spec x y)
            end); lia. }
  lia.
Qed.

(** X19: A score is never negative: every listed word counts at least 100
    points, so a player with [n] words has at least [100 * n] points, and a
    player has 0 points exactly without words. *)
Theorem scores_are_not_negative dir code g playerId p :
  reachable dir →
  dir !! code = Some g →
  players g !! playerId = Some p →
  100 * Z.of_nat (length (words p)) ≤ score p ∧
  (score p = 0 ↔ words p = []).
Proof.
  intros Hreach Hg Hp.
  destruct (reachable_game_ok _ _ _ Hreach Hg) as (_ & _ & _ & Hplayers).
  destruct (Hplayers _ _ Hp) as (_ & _ & _ & Hwords & _ & Hscore & _).
  pose proof (total_points_at_least g _ Hwords) as Hmin. rewrite <- Hscore in Hmin.
  split; [exact Hmin|]. split.
  - intros H0. destruct (words p); [reflexivity | simpl in Hmin; lia].
  - intros Hnil. rewrite Hscore, Hnil. reflexivity.
Qed.

(** ** Submitting and removing *)

(** What an accepted answer says about the request. *)
Lemma submitWord_accepted_inv code playerId reqWord dir pts w :
  http_body (submitWord code playerId reqWord dir).1 = AcceptedBody pts w →
  ∃ game p,
    loadGame code dir = Some game ∧ status game = active ∧
    players game !! playerId = Some p ∧
    (3 ≤ length (toUpperCase (trim reqWord)))%nat ∧
    canFormWord (toUpperCase (trim reqWord)) (letters game) = true ∧
    toUpperCase (trim reqWord) ∈ wordSet ∧
    toUpperCase (trim reqWord) ∉ word <$> words p.
Proof.
  unfold submitWord, get_player.
  destruct (loadGame code dir) as [game|] eqn:Hload; [|discriminate].
  destruct (status game) eqn:Hs; cbn [status_eqb negb]; try discriminate.
  destruct (players game !! playerId) as [p|] eqn:Hp.
  - destruct (Nat.ltb_spec (length (toUpperCase (trim reqWord))) 3) as [Hlt|Hlen];
      [discriminate|].
    destruct (canFormWord _ _) eqn:Hform; [|discriminate].
    destruct (bool_decide _) eqn:Hdict; [|discriminate].
    destruct (already_submitted _ _) eqn:Hdup; [discriminate|].
    intros _. exists game, p. repeat split; try assumption.
    + apply bool_decide_eq_true in Hdict. exact Hdict.
    + apply already_submitted_false, Hdup.
  - destruct (bool_decide _); [|discriminate].
    destruct (_ <? _)%nat; [discriminate|].
    destruct (negb (canFormWord _ _)); [discriminate|].
    destruct (negb (bool_decide _)); discriminate.
Qed.

Lemma list_find_snoc_new (ws : list word_entry) (e : word_entry) (w : jsstring) :
  word e = w →
  w ∉ word <$> ws →
  list_find (λ x, word x = w) (ws ++ [e]) = Some (length ws, e).
Proof.
  intros He Hnew. apply list_find_Some. split; [|split; [exact He|]].
  - rewrite lookup_app_r by lia. rewrite Nat.sub_diag. reflexivity.
  - intros j y Hj Hlt Hy. apply Hnew. rewrite <- Hy.
    rewrite lookup_app_l in Hj by exact Hlt.
    apply list_elem_of_fmap. exists y. split; [reflexivity|].
    eapply list_elem_of_lookup_2, Hj.
Qed.

Lemma player_eta p : Player (name p) (words p) (score p) = p.
Proof. destruct p; reflexivity. Qed.

Lemma set_players_id g : set_players g (players g) = g.
Proof. destruct g; reflexivity. Qed.

(** X20: Removing a word right after it was accepted undoes the submission: the
    directory is again what it was before the word was submitted. *)
Theorem removeWord_undoes_submitWord code playerId reqWord dir pts w :
  http_body (submitWord code playerId reqWord dir).1 = AcceptedBody pts w →
  step (Request (RemoveWord code playerId reqWord))
       (step (Request (SubmitWord code playerId reqWord)) dir)
    = dir.
Proof.
  intros Hacc.
  destruct (submitWord_accepted_inv _ _ _ _ _ _ Hacc)
    as (game & p & Hload & Hs & Hp & Hlen & Hform & Hdict & Hnew).
  pose proof (submitWord_accepted _ _ _ _ _ _ _ Hload Hs Hp eq_refl Hlen Hform Hdict Hnew)
    as Hsub.
  set (wordUpper := toUpperCase (trim reqWord)) in *.
  set (e := WordEntry wordUpper (calculatePoints wordUpper)) in *.
  set (p1 := Player (name p) (words p ++ [e]) (score p + calculatePoints wordUpper)) in *.
  set (game1 := set_players game (<[playerId := p1]> (players game))) in *.
  cbn [step handle]. rewrite Hsub. cbn [snd commit foldl perform].
  unfold removeWord, loadGame. rewrite lookup_insert_eq.
  change (status game1) with (status game). rewrite Hs. cbn [status_eqb negb].
  rewrite (get_player_own _ _ p1) by apply lookup_insert_eq.
  change (words p1) with (words p ++ [e]).
  fold wordUpper.
  rewrite (list_find_snoc_new (words p) e wordUpper eq_refl Hnew).
  cbn [snd commit foldl perform].
  change (words p ++ [e]) with (words p ++ e :: []). rewrite delete_middle, app_nil_r.
  change (name p1) with (name p).
  change (score p1 - points e) with (score p + calculatePoints wordUpper - calculatePoints wordUpper).
  replace (score p + calculatePoints wordUpper - calculatePoints wordUpper) with (score p) by lia.
  rewrite player_eta.
  change (players game1) with (<[playerId := p1]> (players game)).
  rewrite (insert_insert_eq (players game)), (insert_id _ _ _ Hp).
  assert (set_players game1 (players game) = game) as ->
    by (unfold game1; destruct game; reflexivity).
  rewrite insert_insert_eq. apply insert_id, Hload.
Qed.

Lemma removed_word_is_gone (ws : list word_entry) i e :
  NoDup (word <$> ws) → ws !! i = Some e → word e ∉ word <$> delete i ws.
Proof.
  intros Hnodup Hi.
  rewrite <- (take_drop_middle _ _ _ Hi) in Hnodup.
  rewrite fmap_app, fmap_cons in Hnodup.
  apply NoDup_app in Hnodup as (_ & Hleft & Hright).
  apply NoDup_cons in Hright as [Hright _].
  rewrite delete_take_drop, fmap_app. intros Hin.
  apply elem_of_app in Hin as [Hin|Hin]; [|contradiction].
  apply (Hleft _ Hin). left.
Qed.

(** X21: Removing a word twice is the same as removing it once: after the first
    request the word is not in the list any more, and the second writes
    nothing. *)
Theorem removeWord_twice code playerId reqWord dir :
  reachable dir →
  step (Request (RemoveWord code playerId reqWord))
       (step (Request (RemoveWord code playerId reqWord)) dir)
    = step (Request (RemoveWord code playerId reqWord)) dir.
Proof.
  intros Hreach.
  destruct (handle_cases (RemoveWord code playerId reqWord) dir)
    as [[H _] | [(random & scrambled & now & [=] & _) | (g & g' & Hg & Hupd & H & _)]].
  - assert (step (Request (RemoveWord code playerId reqWord)) dir = dir) as ->
      by (cbn [step]; rewrite H; reflexivity).
    cbn [step]. rewrite H. reflexivity.
  - cbn [request_code] in *.
    assert (step (Request (RemoveWord code playerId reqWord)) dir = <[code := g']> dir) as ->
      by (cbn [step]; rewrite H; reflexivity).
    inversion Hupd as [| | | |c pid w p i e Hs Hp Hfind]; subst.
    destruct (reachable_game_ok _ _ _ Hreach Hg) as (_ & _ & _ & Hplayers).
    destruct (Hplayers _ _ Hp) as (_ & _ & _ & _ & Hnodup & _).
    pose proof Hfind as Hfind'.
    apply list_find_Some in Hfind' as (Hi & He & _).
    cbn [step handle]. unfold removeWord, loadGame. rewrite lookup_insert_eq.
    cbn [status set_players]. rewrite Hs. cbn [status_eqb negb].
    rewrite (get_player_own _ _ (Player (name p) (delete i (words p)) (score p - points e)))
      by apply lookup_insert_eq.
    cbn [words].
    assert (list_find (λ w, word w = toUpperCase (trim reqWord)) (delete i (words p)) = None)
      as ->.
    { apply list_find_None, Forall_forall. intros y Hy Heq.
      apply (removed_word_is_gone _ _ _ Hnodup Hi). rewrite He, <- Heq.
      apply list_elem_of_fmap. exists y. split; [reflexivity | exact Hy]. }
    reflexivity.
Qed.

(** ** The cleanup *)

Lemma commit_unlinks_lookup codes :
  ∀ (dir : directory) c,
    commit (UnlinkFile <$> codes) dir !! c
    = if decide (c ∈ codes) then None else dir !! c.
Proof.
  induction codes as [|k codes IH]; intros dir c.
  - rewrite decide_False by apply not_elem_of_nil. reflexivity.
  - cbn [fmap list_fmap commit foldl perform].
    pose proof (IH (delete k dir) c) as H. unfold commit in H. rewrite H.
    destruct (decide (c ∈ codes)) as [Hin|Hout].
    + rewrite decide_True by (right; exact Hin). reflexivity.
    + destruct (decide (c = k)) as [->|Hne].
      * rewrite decide_True by left. apply lookup_delete_eq.
      * rewrite decide_False by (intros Hc; apply elem_of_cons in Hc as [?|?]; contradiction).
        apply lookup_delete_ne. congruence.
Qed.

(** X24: The cleanup removes exactly the games created more than 24 hours
    before it runs, and leaves every other game as it is. *)
Theorem cleanup_removes_old_games now dir code :
  step (CleanupTick now) dir !! code
  = match dir !! code with
    | Some g => if decide (now - createdAt g > 24 * 60 * 60 * 1000) then None else Some g
    | None => None
    end.
Proof.
  cbn [step].
  set (old := filter (λ kv, now - createdAt kv.2 > 24 * 60 * 60 * 1000) (map_to_list dir)).
  assert (cleanup now dir = UnlinkFile <$> (fst <$> old)) as ->
    by (unfold cleanup; rewrite <- list_fmap_compose; reflexivity).
  rewrite commit_unlinks_lookup.
  assert (code ∈ fst <$> old ↔
          ∃ g, dir !! code = Some g ∧ now - createdAt g > 24 * 60 * 60 * 1000) as Hin.
  { unfold old. rewrite list_elem_of_fmap. split.
    - intros ([c g] & -> & Hkv). apply list_elem_of_filter in Hkv as [Hold Hkv].
      apply elem_of_map_to_list in Hkv. exists g. split; assumption.
    - intros (g & Hg & Hold). exists (code, g). split; [reflexivity|].
      apply list_elem_of_filter. split; [exact Hold | apply elem_of_map_to_list, Hg]. }
  destruct (dir !! code) as [g|] eqn:Hg.
  - destruct (decide (now - createdAt g > 24 * 60 * 60 * 1000)) as [Hold|Hyoung].
    + rewrite decide_True by (apply Hin; eauto). reflexivity.
    + rewrite decide_False; [reflexivity|].
      intros (g' & [= <-] & Hold)%Hin. contradiction.
  - destruct (decide (code ∈ fst <$> old)); reflexivity.
Qed.

(** ** The dictionary *)

(** X25: What the start-up code makes of the word list: every dictionary word
    is a trimmed, upper-cased line of the file with at least 3 code units,
    and the six-letter words are exactly the dictionary words of length 6.
    When the file cannot be read both are empty. *)
Theorem loadWordlist_contents :
  loadWordlist None = (∅, []) ∧
  ∀ wordlist w,
    (w ∈ (loadWordlist (Some wordlist)).1 ↔
       (3 ≤ length w)%nat ∧
       ∃ line, line ∈ split_lines wordlist ∧ w = toUpperCase (trim line)) ∧
    (w ∈ (loadWordlist (Some wordlist)).2 ↔
       w ∈ (loadWordlist (Some wordlist)).1 ∧ length w = 6%nat).
Proof.
  split; [reflexivity|]. intros wordlist w. unfold loadWordlist. cbn [fst snd].
  set (lines := (λ w, toUpperCase (trim w)) <$> split_lines wordlist).
  assert (w ∈ lines ↔ ∃ line, line ∈ split_lines wordlist ∧ w = toUpperCase (trim line))
    as Hlines.
  { unfold lines. rewrite list_elem_of_fmap. split; intros (line & ? & ?); eauto. }
  split.
  - rewrite elem_of_list_to_set, list_elem_of_filter, Hlines. reflexivity.
  - rewrite elem_of_list_to_set, !list_elem_of_filter. tauto.
Qed.

(** ** The client's timer *)

Lemma Qceiling_remaining d t :
  Qceiling (inject_Z d - inject_Z t / inject_Z 1000) = - ((t - d * 1000) / 1000).
Proof.
  unfold Qceiling. f_equal.
  assert (- (inject_Z d - inject_Z t / inject_Z 1000) == (t - d * 1000) # 1000)%Q as ->.
  { unfold Qeq, Qopp, Qminus, Qplus, Qdiv, Qmult, Qinv, inject_Z; cbn. lia. }
  reflexivity.
Qed.

(** X28: The timer of the client and the reads of the server agree: for an
    active game the timer shows a number that is not negative; it shows 0
    (and the word input is disabled) exactly from the time on at which a
    read finishes the game; before that it shows the seconds that are left,
    rounded up. *)
Theorem updateTimer_agrees_with_reads g now start :
  status g = active →
  startTime g = Some start →
  start ≠ 0 →
  ∃ remaining,
    updateTimer g now = Some remaining ∧
    0 ≤ remaining ∧
    (remaining = 0 ↔ time_is_up now start (duration g) = true) ∧
    (0 < remaining →
       (remaining - 1) * 1000 < duration g * 1000 - (now - start) ≤ remaining * 1000).
Proof.
  intros Hs Hstart Hnz. unfold updateTimer.
  rewrite Hs, Hstart. unfold truthy, to_number.
  change (default 0 (Some start)) with start. cbn [status_eqb negb orb].
  rewrite (proj2 (Z.eqb_neq _ _) Hnz). cbn [negb]. cbv zeta.
  rewrite Qceiling_remaining.
  eexists. split; [reflexivity|]. rewrite time_is_up_iff.
  pose proof (Z.div_mod (now - start - duration g * 1000) 1000 ltac:(lia)) as Hdiv.
  pose proof (Z.mod_pos_bound (now - start - duration g * 1000) 1000 ltac:(lia)) as Hmod.
  set (q := (now - start - duration g * 1000) / 1000) in *.
  repeat split; try lia.
Qed.

(** ** The client's leaderboard *)

Lemma insert_by_score_Permutation x l : insert_by_score x l ≡ₚ x :: l.
Proof.
  induction l as [|y l IH]; [reflexivity|]. simpl.
  destruct (score x.2 <? score y.2); [|reflexivity].
  rewrite IH. apply Permutation_swap.
Qed.

Lemma sortedPlayers_Permutation entries : sortedPlayers entries ≡ₚ entries.
Proof.
  induction entries as [|x entries IH]; [reflexivity|].
  cbn [sortedPlayers foldr]. fold (sortedPlayers entries).
  rewrite insert_by_score_Permutation, IH. reflexivity.
Qed.

Lemma insert_by_score_sorted x l :
  StronglySorted (λ a b, score b.2 ≤ score a.2) l →
  StronglySorted (λ a b, score b.2 ≤ score a.2) (insert_by_score x l).
Proof.
  induction 1 as [|y l Hl IH Hy]; [repeat constructor|]. simpl.
  destruct (Z.ltb_spec (score x.2) (score y.2)) as [Hlt|Hge].
  - constructor; [exact IH|].
    rewrite insert_by_score_Permutation. constructor; [lia | exact Hy].
  - constructor; [constructor; assumption|].
    constructor; [exact Hge|].
    eapply Forall_impl; [exact Hy|]. intros z Hz. cbn in *. lia.
Qed.

Lemma sortedPlayers_sorted entries :
  StronglySorted (λ a b, score b.2 ≤ score a.2) (sortedPlayers entries).
Proof.
  induction entries as [|x entries IH]; [constructor|].
  apply insert_by_score_sorted, IH.
Qed.

Lemma insert_by_score_filter (s : Z) x l :
  StronglySorted (λ a b, score b.2 ≤ score a.2) l →
  filter (λ e, score e.2 = s) (insert_by_score x l)
  = filter (λ e, score e.2 = s) (x :: l).
Proof.
  induction 1 as [|y l Hl IH Hy]; [reflexivity|]. simpl.
  destruct (Z.ltb_spec (score x.2) (score y.2)) as [Hlt|Hge]; [|reflexivity].
  rewrite (filter_cons _ y), IH, !(filter_cons _ x), (filter_cons _ y).
  destruct (decide (score y.2 = s)), (decide (score x.2 = s)); try reflexivity. lia.
Qed.

(** X29: The leaderboard lists every player once, by falling score: no entry
    has a lower score than an entry after it, so the first entry, the one
    marked as first place, has the highest score of all. *)
Theorem leaderboard_is_sorted entries :
  sortedPlayers entries ≡ₚ entries ∧
  StronglySorted (λ a b, score b.2 ≤ score a.2) (sortedPlayers entries) ∧
  ∀ first rest,
    sortedPlayers entries = first :: rest →
    ∀ e, e ∈ entries → score e.2 ≤ score first.2.
Proof.
  split; [apply sortedPlayers_Permutation|].
  split; [apply sortedPlayers_sorted|].
  intros first rest Heq e He.
  rewrite <- sortedPlayers_Permutation, Heq in He.
  pose proof (sortedPlayers_sorted entries) as Hsorted. rewrite Heq in Hsorted.
  apply StronglySorted_inv in Hsorted as [_ Hfirst].
  apply elem_of_cons in He as [->|He]; [lia|].
  rewrite Forall_forall in Hfirst. apply Hfirst, He.
Qed.

(** X30: Players with the same score keep, on the leaderboard, the order they
    have in the list that is sorted (the order in which they joined). *)
Theorem leaderboard_keeps_ties_in_order entries (s : Z) :
  filter (λ e, score e.2 = s) (sortedPlayers entries)
  = filter (λ e, score e.2 = s) entries.
Proof.
  induction entries as [|x entries IH]; [reflexivity|].
  cbn [sortedPlayers foldr]. fold (sortedPlayers entries).
  rewrite insert_by_score_filter by apply sortedPlayers_sorted.
  rewrite !(filter_cons _ x), IH. reflexivity.
Qed.

(** A word can be formed from any scramble of itself. *)
Lemma canFormWord_of_scramble (w scrambled : jsstring) :
  no_pairs w → scrambled ≡ₚ w → canFormWord w scrambled = true.
Proof.
  intros Hw Hperm.
  assert (no_pairs scrambled) as Hs by (eapply no_pairs_Permutation; [symmetry|]; eassumption).
  unfold canFormWord.
  rewrite (string_iterator_units _ Hs), (string_iterator_units _ Hw), consume_tally.
  intros c.
  rewrite (tally_count_Permutation c ((λ u, [u]) <$> scrambled) ((λ u, [u]) <$> w))
    by (rewrite Hperm; reflexivity).
  lia.
Qed.

(** With an empty dictionary no word request ever writes. *)
Lemma empty_dictionary_accepts_nothing code playerId reqWord dir :
  wordSet = ∅ →
  (submitWord code playerId reqWord dir).2 = [] ∧
  ∀ pts w, http_body (submitWord code playerId reqWord dir).1 ≠ AcceptedBody pts w.
Proof.
  intros Hempty. split.
  - destruct (handle_cases (SubmitWord code playerId reqWord) dir)
      as [[H _] | [(random & scrambled & now & [=] & _) | (g & g' & _ & Hupd & _)]];
      [exact H|].
    inversion Hupd as [| | |c pid w p Hs Hp Hlen Hform Hdict Hnew|]; subst.
    rewrite Hempty in Hdict. set_solver.
  - intros pts w Hacc.
    apply submitWord_accepted_inv in Hacc as (g & p & _ & _ & _ & _ & _ & Hdict & _).
    rewrite Hempty in Hdict. set_solver.
Qed.

(** ** Codes in use *)

Lemma random_index_exact k :
  random_index (Z.of_nat k # 32) (length chars) = Z.of_nat k.
Proof.
  unfold random_index. change (Z.of_nat (length chars)) with 32.
  unfold Qfloor, Qmult, inject_Z; cbn [Qnum Qden].
  change (Z.pos (32 * 1)) with 32. apply Z.div_mul. lia.
Qed.

Lemma index_text_lookup k u :
  chars !! k = Some u → index_text chars (Z.of_nat k) = [u].
Proof.
  intros Hk. unfold index_text.
  destruct (Z.leb_spec 0 (Z.of_nat k)); [|lia].
  rewrite Nat2Z.id, Hk. reflexivity.
Qed.

(** X23: Every string of 6 characters of the alphabet is the code of some
    sequence of draws, and [createGame] does not look whether the code it
    draws is in use: with those draws, a create request replaces whatever
    is stored under the code by a new waiting game without players. *)
Theorem create_can_replace_any_game code :
  length code = 6%nat →
  (∀ u, u ∈ code → u ∈ chars) →
  ∃ random,
    unit_interval random ∧
    generateGameCode random = code ∧
    ∀ dir scrambled now,
      step (Request (CreateGame random scrambled now)) dir !! code
        = Some (Game code (generateLetters scrambled) ∅ waiting None ROUND_DURATION now).
Proof.
  intros Hlen Hchars.
  destruct code as [|c0 [|c1 [|c2 [|c3 [|c4 [|c5 [|]]]]]]]; try discriminate.
  assert (∀ u, u ∈ [c0; c1; c2; c3; c4; c5] → ∃ k, chars !! k = Some u ∧ (k < 32)%nat) as Hk.
  { intros u Hu. apply Hchars, list_elem_of_lookup in Hu as [k Hk].
    exists k. split; [exact Hk | apply lookup_lt_Some in Hk; exact Hk]. }
  destruct (Hk c0) as (k0 & E0 & L0); [repeat constructor|].
  destruct (Hk c1) as (k1 & E1 & L1); [repeat constructor|].
  destruct (Hk c2) as (k2 & E2 & L2); [repeat constructor|].
  destruct (Hk c3) as (k3 & E3 & L3); [repeat constructor|].
  destruct (Hk c4) as (k4 & E4 & L4); [repeat constructor|].
  destruct (Hk c5) as (k5 & E5 & L5); [repeat constructor|].
  set (random := λ i : nat, (Z.of_nat (nth i [k0; k1; k2; k3; k4; k5] 0%nat) # 32)%Q).
  assert (generateGameCode random = [c0; c1; c2; c3; c4; c5]) as Hcode.
  { unfold generateGameCode, random. cbn [seq foldl nth].
    rewrite !random_index_exact.
    rewrite (index_text_lookup _ _ E0), (index_text_lookup _ _ E1),
      (index_text_lookup _ _ E2), (index_text_lookup _ _ E3),
      (index_text_lookup _ _ E4), (index_text_lookup _ _ E5).
    reflexivity. }
  exists random. split; [|split; [exact Hcode|]].
  - intros i. unfold random, Qle, Qlt; cbn [Qnum Qden].
    assert (nth i [k0; k1; k2; k3; k4; k5] 0 < 32)%nat as Hi
      by (do 6 (destruct i as [|i]; [simpl; lia|]); destruct i; simpl; lia).
    lia.
  - intros dir scrambled now. cbn [step handle]. unfold createGame.
    cbn [snd commit foldl perform]. rewrite Hcode. apply lookup_insert_eq.
Qed.

(** X22: A word request changes nothing but the record of the player it names:
    the game keeps its status and start time, and every other player keeps
    words and score. *)
Theorem word_requests_touch_one_player e code playerId reqWord dir code' g g' :
  e = Request (SubmitWord code playerId reqWord) ∨
  e = Request (RemoveWord code playerId reqWord) →
  dir !! code' = Some g →
  step e dir !! code' = Some g' →
  status g' = status g ∧ startTime g' = startTime g ∧
  ∀ other, other ≠ playerId → players g' !! other = players g !! other.
Proof.
  intros He Hg Hg'.
  destruct (step_cases e dir code')
    as [H | [(now & -> & H) | [(r & g0 & g1 & -> & Hcode & Hg0 & Hupd & H)
                             | (random & scrambled & now & -> & _ & H)]]].
  - rewrite H, Hg in Hg'. injection Hg' as <-. repeat split.
  - destruct He; discriminate.
  - rewrite H in Hg'. rewrite Hg in Hg0. injection Hg' as <-. injection Hg0 as <-.
    destruct He as [[= ->] | [= ->]];
      inversion Hupd; subst;
      cbn [status startTime players set_players];
      (split; [reflexivity|]); (split; [reflexivity|]);
      intros other Hother; apply lookup_insert_ne; congruence.
  - destruct He; discriminate.
Qed.

End Server.

(** ** A concrete game

    The theorems above, applied to one run of the server: upper-casing of
    ASCII letters stands in for [toUpperCase], the dictionary has four
    words, rounds last 10 seconds.  A game is created (every draw is 0, so
    its code is AAAAAA), Alice joins, the game is started, and Alice submits
    " mast " and "team". *)

Definition ascii_toUpperCase (s : jsstring) : jsstring :=
  (λ u, if (97 <=? u) && (u <=? 122) then u - 32 else u)%N <$> s.

Definition demo_wordSet : gset jsstring :=
  {[ js "MAST"; js "TEAM"; js "MASTER"; js "STREAM" ]}.

Definition demo_sixLetterWords : list jsstring := [js "MASTER"; js "STREAM"].

Definition demo_code : jsstring := js "AAAAAA".

Definition demo_playerId : jsstring := js "player_1000_k3x9".

Definition demo_lobby_events : list event :=
  [ Request (CreateGame (λ _, 0%Q) (js "MASTER") 1000);
    Request (JoinGame demo_code (Some (js " Alice ")) (js "1000_k3x9")) ].

Definition demo_events : list event :=
  demo_lobby_events ++
  [ Request (StartGame demo_code 2000);
    Request (SubmitWord demo_code demo_playerId (js " mast "));
    Request (SubmitWord demo_code demo_playerId (js "team")) ].

(** The directory before the game is started. *)
Definition demo_lobby : directory :=
  run ascii_toUpperCase demo_wordSet demo_sixLetterWords 10 demo_lobby_events ∅.

(** The directory after the two submissions. *)
Definition demo_dir : directory :=
  run ascii_toUpperCase demo_wordSet demo_sixLetterWords 10 demo_events ∅.

Definition demo_player : player :=
  Player (js "Alice") [WordEntry (js "MAST") 400; WordEntry (js "TEAM") 400] 800.

Definition demo_game : game :=
  Game demo_code (js "MASTER") {[ demo_playerId := demo_player ]} active (Some 2000) 10 1000.

Definition demo_lobby_game : game :=
  Game demo_code (js "MASTER") {[ demo_playerId := Player (js "Alice") [] 0 ]}
       waiting None 10 1000.

Lemma demo_dir_game : demo_dir !! demo_code = Some demo_game.
Proof. vm_compute. reflexivity. Qed.

Lemma demo_lobby_lobby_game : demo_lobby !! demo_code = Some demo_lobby_game.
Proof. vm_compute. reflexivity. Qed.

Lemma demo_game_player : players demo_game !! demo_playerId = Some demo_player.
Proof. vm_compute. reflexivity. Qed.

Lemma demo_dir_reachable :
  reachable ascii_toUpperCase demo_wordSet demo_sixLetterWords 10 demo_dir.
Proof. apply reachable_run, reachable_empty. Qed.

Example canFormWord_team : canFormWord (js "TEAM") (js "MASTER") = true.
Proof. reflexivity. Qed.

Example canFormWord_teams : canFormWord (js "TEAMS") (js "MASTER") = true.
Proof. reflexivity. Qed.

Example canFormWord_masters : canFormWord (js "MASTERS") (js "MASTER") = false.
Proof. reflexivity. Qed.

Example generateGameCode_zero : generateGameCode (λ _, 0%Q) = js "AAAAAA".
Proof. reflexivity. Qed.

Lemma calculatePoints_piecewise_witness :
  calculatePoints (js "CAT") = 100 ∧ calculatePoints (js "MASTERING") = 2800.
Proof.
  split.
  - apply (calculatePoints_piecewise (js "CAT")). reflexivity.
  - apply (calculatePoints_piecewise (js "MASTERING")). vm_compute. lia.
Defined.

Lemma generateGameCode_alphabet_witness :
  length (generateGameCode (λ _, 0%Q)) = 6%nat.
Proof.
  apply generateGameCode_alphabet.
  intros i. split; [apply Qle_refl | reflexivity].
Defined.


Lemma score_is_sum_of_points_witness :
  score demo_player = total_points (words demo_player).
Proof.
  apply (score_is_sum_of_points ascii_toUpperCase demo_wordSet demo_sixLetterWords 10
           demo_dir demo_code demo_game demo_playerId demo_player).
  - exact demo_dir_reachable.
  - exact demo_dir_game.
  - exact demo_game_player.
Defined.

Lemma words_are_distinct_witness : NoDup (word <$> words demo_player).
Proof.
  apply (words_are_distinct ascii_toUpperCase demo_wordSet demo_sixLetterWords 10
           demo_dir demo_code demo_game demo_playerId demo_player).
  - exact demo_dir_reachable.
  - exact demo_dir_game.
  - exact demo_game_player.
Defined.

(** Alice submits "master" twice. *)
Lemma submitWord_twice_witness :
  ∃ dir1 p1,
    (submitWord ascii_toUpperCase demo_wordSet demo_code demo_playerId (js "master")
                demo_dir).1
      = json (AcceptedBody 1400 (js "MASTER")) ∧
    stored_player dir1 demo_code demo_playerId = Some p1 ∧
    score p1 = 2200 ∧
    submitWord ascii_toUpperCase demo_wordSet demo_code demo_playerId (js "master") dir1
      = (json (RejectedBody "Word already submitted"), []).
Proof.
  destruct (submitWord_twice ascii_toUpperCase demo_wordSet demo_sixLetterWords 10
              demo_code demo_playerId (js "master") demo_dir demo_game demo_player
              (js "MASTER"))
    as (dir1 & p1 & _ & Hfirst & Hstored & Hscore & Hsecond & _).
  - exact demo_dir_game.
  - reflexivity.
  - exact demo_game_player.
  - reflexivity.
  - vm_compute. lia.
  - reflexivity.
  - vm_compute. reflexivity.
  - vm_compute. intros H. repeat (apply elem_of_cons in H as [H | H]; [discriminate|]).
    apply elem_of_nil in H. exact H.
  - exists dir1, p1. repeat split; assumption.
Defined.

(** The demo game after a read at 12000 ms, when its time is up. *)
Definition demo_finished_game : game := set_status demo_game finished.

Definition demo_finished : directory :=
  step ascii_toUpperCase demo_wordSet demo_sixLetterWords 10
       (Request (GetGame demo_code 12000)) demo_dir.

Lemma demo_finished_lookup : demo_finished !! demo_code = Some demo_finished_game.
Proof. vm_compute. reflexivity. Qed.

(** The demo game was started at 2000 ms and lasts 10 s: at 12000 ms its
    time is up, and the read answers with a finished game. *)
Lemma finished_is_final_witness :
  ∃ game',
    status game' = finished ∧
    (getGame demo_code 12000 demo_dir).1 = json (GameBody game') ∧
    demo_finished !! demo_code = Some game'.
Proof.
  destruct (proj1 (finished_is_final ascii_toUpperCase demo_wordSet demo_sixLetterWords 10)
              demo_dir demo_code demo_game 2000 12000)
    as (game' & [_ Hfin] & Hresp & Hlater).
  - exact demo_dir_game.
  - reflexivity.
  - reflexivity.
  - discriminate.
  - vm_compute. discriminate.
  - exists game'. split; [exact Hfin|]. split; [exact Hresp|].
    exact (proj1 (Hlater [])).
Defined.

(** The lobby of the demo game, started when the clock reads 0. *)
Definition demo_started_at_0 : directory :=
  step ascii_toUpperCase demo_wordSet demo_sixLetterWords 10
       (Request (StartGame demo_code 0)) demo_lobby.

(** C6 as the specification words it does not hold.  The finished demo game
    is stored under AAAAAA; a create request whose six draws are 0 draws
    AAAAAA again and stores a waiting game there, so an operation has changed
    the status under that code from finished to waiting.  And a game that
    was started when the clock read 0 has a start time that [getGame] takes
    for none: a day later, far beyond its 10 seconds, a read still answers
    active and writes nothing. *)
Lemma finished_is_not_final :
  (reachable ascii_toUpperCase demo_wordSet demo_sixLetterWords 10 demo_finished ∧
   status <$> demo_finished !! demo_code = Some finished ∧
   status <$> step ascii_toUpperCase demo_wordSet demo_sixLetterWords 10
                (Request (CreateGame (λ _, 0%Q) (js "STREAM") 90000)) demo_finished
              !! demo_code
     = Some waiting) ∧
  (¬ ∀ e dir code game game',
       dir !! code = Some game →
       step ascii_toUpperCase demo_wordSet demo_sixLetterWords 10 e dir !! code = Some game' →
       status game = finished → status game' = finished) ∧
  (reachable ascii_toUpperCase demo_wordSet demo_sixLetterWords 10 demo_started_at_0 ∧
   (∃ game, demo_started_at_0 !! demo_code = Some game ∧
            status game = active ∧ startTime game = Some 0 ∧
            duration game * 1000 ≤ 86400000 - 0) ∧
   status <$> snapshot (getGame demo_code 86400000 demo_started_at_0).1 = Some active ∧
   step ascii_toUpperCase demo_wordSet demo_sixLetterWords 10
        (Request (GetGame demo_code 86400000)) demo_started_at_0
     = demo_started_at_0).
Proof.
  assert (status <$> step ascii_toUpperCase demo_wordSet demo_sixLetterWords 10
                       (Request (CreateGame (λ _, 0%Q) (js "STREAM") 90000)) demo_finished
                     !! demo_code
          = Some waiting) as Hcreate by (vm_compute; reflexivity).
  split; [|split].
  - split; [apply reachable_step, demo_dir_reachable|].
    split; [rewrite demo_finished_lookup; reflexivity | exact Hcreate].
  - intros H.
    destruct (step ascii_toUpperCase demo_wordSet demo_sixLetterWords 10
                (Request (CreateGame (λ _, 0%Q) (js "STREAM") 90000)) demo_finished
              !! demo_code) as [game'|] eqn:Hg'; [|discriminate].
    specialize (H _ _ _ _ _ demo_finished_lookup Hg' eq_refl).
    cbn in Hcreate. rewrite H in Hcreate. discriminate.
  - split; [apply reachable_step, reachable_run, reachable_empty|].
    split; [|split; vm_compute; reflexivity].
    eexists. split; [vm_compute; reflexivity|].
    split; [reflexivity|]. split; [reflexivity | vm_compute; discriminate].
Qed.

(** Joining the started game, and submitting a word before the start. *)
Lemma wrong_state_is_refused_witness :
  joinGame demo_code (Some (js "Bob")) (js "3000_q1w2") demo_dir
    = (Response 400 (ErrorBody "Game already started"), []) ∧
  submitWord ascii_toUpperCase demo_wordSet demo_code demo_playerId (js "mast") demo_lobby
    = (Response 400 (ErrorInvalidBody "Game not active"), []).
Proof.
  split.
  - apply (proj1 (wrong_state_is_refused ascii_toUpperCase demo_wordSet
                    demo_sixLetterWords 10 demo_code demo_dir demo_game demo_dir_game)).
    discriminate.
  - apply (proj2 (wrong_state_is_refused ascii_toUpperCase demo_wordSet
                    demo_sixLetterWords 10 demo_code demo_lobby demo_lobby_game
                    demo_lobby_lobby_game)).
    discriminate.
Defined.

(** Removing "stream", which Alice never submitted, and "team", which she
    did. *)
Lemma removeWord_spec_witness :
  removeWord ascii_toUpperCase demo_code demo_playerId (js "stream") demo_dir
    = (Response 200 SuccessBody, []) ∧
  stored_player
    (step ascii_toUpperCase demo_wordSet demo_sixLetterWords 10
          (Request (RemoveWord demo_code demo_playerId (js " team"))) demo_dir)
    demo_code demo_playerId
    = Some (Player (js "Alice") [WordEntry (js "MAST") 400] 400).
Proof.
  split.
  - apply (proj1 (removeWord_spec ascii_toUpperCase demo_wordSet demo_sixLetterWords 10
                    demo_code demo_playerId (js "stream") demo_dir demo_game demo_player
                    (js "STREAM") demo_dir_game eq_refl demo_game_player eq_refl)).
    vm_compute. intros H. repeat (apply elem_of_cons in H as [H | H]; [discriminate|]).
    apply elem_of_nil in H. exact H.
  - apply (proj2 (removeWord_spec ascii_toUpperCase demo_wordSet demo_sixLetterWords 10
                    demo_code demo_playerId (js " team") demo_dir demo_game demo_player
                    (js "TEAM") demo_dir_game eq_refl demo_game_player eq_refl)
             1%nat (WordEntry (js "TEAM") 400)).
    + reflexivity.
    + reflexivity.
    + intros j e' Hj Hlt. destruct j as [|j]; [|lia].
      injection Hj as <-. discriminate.
Defined.

(** ** The server with the dictionary it loaded *)

Section LoadedDictionary.

Variable toUpperCase : jsstring → jsstring.

(** X26: When wordlist.txt cannot be read the server still runs: every game gets
    the letters MASTER, and no submitted word is ever accepted or written
    ("word validation will fail"). *)
Theorem without_wordlist_no_word_is_accepted :
  (∀ scrambled,
     generateLetters (loadWordlist toUpperCase None).2 scrambled = js "MASTER") ∧
  ∀ code playerId reqWord dir,
    (submitWord toUpperCase (loadWordlist toUpperCase None).1 code playerId reqWord dir).2
      = [] ∧
    ∀ pts w,
      http_body
        (submitWord toUpperCase (loadWordlist toUpperCase None).1 code playerId reqWord
                    dir).1
        ≠ AcceptedBody pts w.
Proof.
  split; [reflexivity|]. intros code playerId reqWord dir.
  exact (empty_dictionary_accepts_nothing toUpperCase _ [] 0 code playerId reqWord dir eq_refl).
Qed.

(** X27: With a word list loaded, the six-letter word that a game's letters are
    a scramble of is a solution of the game: the letters are 6, and the word
    has the length, can be formed from the letters and is in the dictionary,
    so it passes the first three checks of a submission, for 1400 points. *)
Theorem seed_word_is_a_solution wordlist scrambled w :
  w ∈ (loadWordlist toUpperCase (Some wordlist)).2 →
  scrambled ≡ₚ w →
  no_pairs w →
  generateLetters (loadWordlist toUpperCase (Some wordlist)).2 scrambled = scrambled ∧
  length scrambled = 6%nat ∧
  (3 ≤ length w)%nat ∧
  canFormWord w scrambled = true ∧
  w ∈ (loadWordlist toUpperCase (Some wordlist)).1 ∧
  calculatePoints w = 1400.
Proof.
  intros Hw Hperm Hpairs.
  assert (w ∈ (loadWordlist toUpperCase (Some wordlist)).1 ∧ length w = 6%nat) as [Hdict H6].
  { cbn [loadWordlist fst snd] in *.
    apply list_elem_of_filter in Hw as [H6 Hw].
    split; [apply elem_of_list_to_set, Hw | exact H6]. }
  split.
  - unfold generateLetters.
    destruct ((loadWordlist toUpperCase (Some wordlist)).2) eqn:Hsix; [|reflexivity].
    apply not_elem_of_nil in Hw. contradiction.
  - split; [rewrite (Permutation_length Hperm); exact H6|].
    split; [lia|].
    split; [apply canFormWord_of_scramble; assumption|].
    split; [exact Hdict|].
    unfold calculatePoints. rewrite H6. reflexivity.
Qed.

End LoadedDictionary.

(** ** The further properties on the concrete game *)

Lemma demo_entry_listed : WordEntry (js "MAST") 400 ∈ words demo_player.
Proof. left. Qed.

Lemma canFormWord_within_pool_witness :
  js "TEAM" ⊆+ js "MASTER" ∧ (length (js "TEAM") ≤ length (js "MASTER"))%nat.
Proof. apply (canFormWord_within_pool (js "TEAM") (js "MASTER")). reflexivity. Defined.

Lemma canFormWord_scrambled_witness :
  canFormWord (js "TEAM") (js "STREAM") = canFormWord (js "TEAM") (js "MASTER").
Proof.
  apply (proj2 (canFormWord_scrambled (js "TEAM") (js "MASTER") (js "STREAM"))).
  - repeat constructor.
  - apply (bool_decide_unpack (js "STREAM" ≡ₚ js "MASTER")). vm_compute. exact I.
Defined.

(** A pool with a lone high surrogate (D800), the letter A and a lone low
    surrogate (DC00): with the two surrogates put next to each other they
    are one character, and the word that is the lone D800 can no longer be
    formed. *)
Example canFormWord_surrogates_come_together :
  [55296; 56320; 65]%N ≡ₚ [55296; 65; 56320]%N ∧
  canFormWord [55296%N] [55296; 65; 56320]%N = true ∧
  canFormWord [55296%N] [55296; 56320; 65]%N = false.
Proof.
  split; [apply Permutation_skip, Permutation_swap|]. split; reflexivity.
Qed.

Lemma refusals_write_nothing_witness :
  (handle ascii_toUpperCase demo_wordSet demo_sixLetterWords 10
          (SubmitWord demo_code demo_playerId (js " ox ")) demo_dir).2 = [] ∧
  step ascii_toUpperCase demo_wordSet demo_sixLetterWords 10
       (Request (SubmitWord demo_code demo_playerId (js " ox "))) demo_dir = demo_dir.
Proof.
  apply (refusals_write_nothing ascii_toUpperCase demo_wordSet demo_sixLetterWords 10
           (SubmitWord demo_code demo_playerId (js " ox ")) demo_dir).
  right. exists "Word must be at least 3 letters"%string. vm_compute. reflexivity.
Defined.

Lemma requests_are_isolated_witness :
  step ascii_toUpperCase demo_wordSet demo_sixLetterWords 10
       (Request (StartGame (js "BBBBBB") 3000)) demo_dir !! demo_code
  = demo_dir !! demo_code.
Proof.
  apply (requests_are_isolated ascii_toUpperCase demo_wordSet demo_sixLetterWords 10
           (StartGame (js "BBBBBB") 3000) demo_dir demo_code).
  - reflexivity.
  - reflexivity.
  - vm_compute. discriminate.
Defined.

Lemma answers_show_stored_game_witness :
  demo_finished !! demo_code = Some demo_finished_game.
Proof.
  apply (answers_show_stored_game ascii_toUpperCase demo_wordSet demo_sixLetterWords 10
           (GetGame demo_code 12000) demo_dir demo_finished_game).
  vm_compute. reflexivity.
Defined.

Lemma unknown_code_is_not_found_witness :
  handle ascii_toUpperCase demo_wordSet demo_sixLetterWords 10
         (JoinGame (js "ZZZZZZ") (Some (js "Bob")) (js "1_a")) demo_dir
  = (Response 404 (ErrorBody "Game not found"), []).
Proof.
  apply (unknown_code_is_not_found ascii_toUpperCase demo_wordSet demo_sixLetterWords 10
           (JoinGame (js "ZZZZZZ") (Some (js "Bob")) (js "1_a")) demo_dir).
  - reflexivity.
  - vm_compute. reflexivity.
  - discriminate.
Defined.

Lemma unknown_player_is_refused_witness :
  submitWord ascii_toUpperCase demo_wordSet demo_code (js "player_nobody") (js "mast") demo_dir
    = (Response 400 (ErrorInvalidBody "Player not found"), []) ∧
  removeWord ascii_toUpperCase demo_code (js "player_nobody") (js "mast") demo_dir
    = (Response 400 (ErrorBody "Player not found"), []).
Proof.
  apply (unknown_player_is_refused ascii_toUpperCase demo_wordSet demo_code
           (js "player_nobody") demo_dir demo_game).
  - exact demo_dir_game.
  - reflexivity.
  - vm_compute. reflexivity.
  - vm_compute. intros H. repeat (apply elem_of_cons in H as [H | H]; [discriminate|]).
    apply elem_of_nil in H. exact H.
Defined.

Lemma joinGame_needs_a_name_witness :
  joinGame demo_code (Some (js "   ")) (js "1_a") demo_lobby
    = (Response 400 (ErrorBody "Player name required"), []).
Proof.
  apply (proj2 (joinGame_needs_a_name ascii_toUpperCase demo_wordSet demo_sixLetterWords 10
                  demo_code (js "1_a") demo_lobby demo_lobby_game
                  demo_lobby_lobby_game eq_refl) (js "   ")).
  repeat constructor.
Defined.

Lemma startGame_only_once_witness :
  startGame demo_code 5000
    (step ascii_toUpperCase demo_wordSet demo_sixLetterWords 10
          (Request (StartGame demo_code 2000)) demo_lobby)
  = (Response 400 (ErrorBody "Game already started"), []).
Proof.
  apply (startGame_only_once ascii_toUpperCase demo_wordSet demo_sixLetterWords 10
           demo_code 2000 demo_lobby demo_lobby_game demo_lobby_lobby_game eq_refl).
Defined.



(** What is stored after Alice submits "master" to the finished game. *)
Definition demo_after_late_submit : game :=
  Game demo_code (js "MASTER") {[ demo_playerId := demo_player ]} finished (Some 2000) 10 1000.

Lemma demo_late_submit_lookup :
  step ascii_toUpperCase demo_wordSet demo_sixLetterWords 10
       (Request (SubmitWord demo_code demo_playerId (js "master"))) demo_finished
    !! demo_code = Some demo_after_late_submit.
Proof. vm_compute. reflexivity. Qed.


Lemma game_finishes_only_when_read_witness :
  ∃ now start,
    Request (GetGame demo_code 12000) = Request (GetGame demo_code now) ∧
    status demo_game = active ∧
    startTime demo_game = Some start ∧ duration demo_game * 1000 ≤ now - start ∧
    demo_finished_game = set_status demo_game finished.
Proof.
  apply (game_finishes_only_when_read ascii_toUpperCase demo_wordSet demo_sixLetterWords 10
           (Request (GetGame demo_code 12000)) demo_dir demo_code demo_game
           demo_finished_game demo_dir_game demo_finished_lookup).
  - discriminate.
  - reflexivity.
Defined.

Lemma stored_games_are_consistent_witness :
  gameCode demo_game = demo_code ∧ duration demo_game = 10.
Proof.
  destruct (stored_games_are_consistent ascii_toUpperCase demo_wordSet demo_sixLetterWords 10
              demo_dir demo_code demo_game demo_dir_reachable demo_dir_game)
    as (Hcode & Hdur & _).
  split; assumption.
Defined.

Lemma stored_players_are_well_formed_witness :
  name demo_player ≠ [] ∧ get_player (players demo_game) demo_playerId = Own demo_player.
Proof.
  destruct (stored_players_are_well_formed ascii_toUpperCase demo_wordSet
              demo_sixLetterWords 10 demo_dir demo_code demo_game demo_playerId demo_player
              demo_dir_reachable demo_dir_game demo_game_player)
    as (_ & Hname & _ & Hown).
  split; assumption.
Defined.

Lemma listed_words_are_valid_witness :
  canFormWord (js "MAST") (letters demo_game) = true ∧ js "MAST" ∈ demo_wordSet.
Proof.
  destruct (listed_words_are_valid ascii_toUpperCase demo_wordSet demo_sixLetterWords 10
              demo_dir demo_code demo_game demo_playerId demo_player
              (WordEntry (js "MAST") 400)
              demo_dir_reachable demo_dir_game demo_game_player demo_entry_listed)
    as (_ & Hform & Hdict & _).
  split; assumption.
Defined.

Lemma scores_are_not_negative_witness :
  100 * Z.of_nat (length (words demo_player)) ≤ score demo_player.
Proof.
  apply (scores_are_not_negative ascii_toUpperCase demo_wordSet demo_sixLetterWords 10
           demo_dir demo_code demo_game demo_playerId demo_player
           demo_dir_reachable demo_dir_game demo_game_player).
Defined.

Lemma removeWord_undoes_submitWord_witness :
  step ascii_toUpperCase demo_wordSet demo_sixLetterWords 10
       (Request (RemoveWord demo_code demo_playerId (js "master")))
       (step ascii_toUpperCase demo_wordSet demo_sixLetterWords 10
             (Request (SubmitWord demo_code demo_playerId (js "master"))) demo_dir)
  = demo_dir.
Proof.
  apply (removeWord_undoes_submitWord ascii_toUpperCase demo_wordSet demo_sixLetterWords 10
           demo_code demo_playerId (js "master") demo_dir 1400 (js "MASTER")).
  vm_compute. reflexivity.
Defined.

Lemma removeWord_twice_witness :
  step ascii_toUpperCase demo_wordSet demo_sixLetterWords 10
       (Request (RemoveWord demo_code demo_playerId (js "team")))
       (step ascii_toUpperCase demo_wordSet demo_sixLetterWords 10
             (Request (RemoveWord demo_code demo_playerId (js "team"))) demo_dir)
  = step ascii_toUpperCase demo_wordSet demo_sixLetterWords 10
         (Request (RemoveWord demo_code demo_playerId (js "team"))) demo_dir.
Proof.
  apply (removeWord_twice ascii_toUpperCase demo_wordSet demo_sixLetterWords 10
           demo_code demo_playerId (js "team") demo_dir demo_dir_reachable).
Defined.

(** At 5000 ms, 3 s after the start of the 10 s game, the timer shows 7. *)
Lemma updateTimer_agrees_with_reads_witness :
  ∃ remaining,
    updateTimer demo_game 5000 = Some remaining ∧
    0 ≤ remaining ∧
    (remaining = 0 ↔ time_is_up 5000 2000 (duration demo_game) = true) ∧
    (0 < remaining →
       (remaining - 1) * 1000 < duration demo_game * 1000 - (5000 - 2000) ≤ remaining * 1000).
Proof.
  apply (updateTimer_agrees_with_reads demo_game 5000 2000).
  - reflexivity.
  - reflexivity.
  - discriminate.
Defined.

Example updateTimer_demo : updateTimer demo_game 5000 = Some 7.
Proof. reflexivity. Qed.

Example sortedPlayers_demo :
  sortedPlayers [ (js "a", Player (js "Ann") [] 100); (js "b", Player (js "Bob") [] 400);
                  (js "c", Player (js "Cy") [] 100); (js "d", Player (js "Di") [] 400) ]
  = [ (js "b", Player (js "Bob") [] 400); (js "d", Player (js "Di") [] 400);
      (js "a", Player (js "Ann") [] 100); (js "c", Player (js "Cy") [] 100) ].
Proof. reflexivity. Qed.

(** A word list of four lines: cat, master, " stream " and ox. *)
Definition demo_wordlist : jsstring :=
  js "cat" ++ [10%N] ++ js "master" ++ [10%N] ++ js " stream " ++ [10%N] ++ js "ox".

Example loadWordlist_demo :
  (loadWordlist ascii_toUpperCase (Some demo_wordlist)).2 = [js "MASTER"; js "STREAM"].
Proof. vm_compute. reflexivity. Qed.

(** STREAM is a scramble of MASTER, a six-letter word of the list. *)
Lemma seed_word_is_a_solution_witness :
  canFormWord (js "MASTER") (js "STREAM") = true ∧ calculatePoints (js "MASTER") = 1400.
Proof.
  destruct (seed_word_is_a_solution ascii_toUpperCase demo_wordlist (js "STREAM")
              (js "MASTER"))
    as (_ & _ & _ & Hform & _ & Hpoints).
  - vm_compute. repeat constructor.
  - apply (bool_decide_unpack (js "STREAM" ≡ₚ js "MASTER")). vm_compute. exact I.
  - repeat constructor.
  - split; assumption.
Defined.

Lemma create_can_replace_any_game_witness :
  ∃ random,
    unit_interval random ∧
    generateGameCode random = demo_code ∧
    ∀ dir scrambled now,
      step ascii_toUpperCase demo_wordSet demo_sixLetterWords 10
           (Request (CreateGame random scrambled now)) dir !! demo_code
        = Some (Game demo_code (generateLetters demo_sixLetterWords scrambled) ∅
                     waiting None 10 now).
Proof.
  apply (create_can_replace_any_game ascii_toUpperCase demo_wordSet demo_sixLetterWords 10
           demo_code).
  - reflexivity.
  - intros u Hu. vm_compute in Hu.
    repeat (apply elem_of_cons in Hu as [-> | Hu]; [vm_compute; repeat constructor|]).
    apply elem_of_nil in Hu. contradiction.
Defined.

Lemma word_requests_touch_one_player_witness :
  status demo_after_late_submit = status demo_finished_game.
Proof.
  apply (word_requests_touch_one_player ascii_toUpperCase demo_wordSet demo_sixLetterWords 10
           (Request (SubmitWord demo_code demo_playerId (js "master")))
           demo_code demo_playerId (js "master") demo_finished demo_code
           demo_finished_game demo_after_late_submit).
  - left. reflexivity.
  - exact demo_finished_lookup.
  - exact demo_late_submit_lookup.
Defined.
